(** * Sports ticker (code.py): scheduler, fetch pipeline, normalizer

    A shallow embedding of the CircuitPython program [code.py]: the
    normalizer [parse_game], the date helper [convert_date_format], the
    pipeline [fetch_all_games] and the main loop with its two tick timers,
    its rotation index and its restart-on-fault handlers.

    Conventions.
    - Python values coming out of [resp.json()] are terms of [pyval].
    - Python exceptions are values of [exn]; a computation that may raise
      has type [res A]; [try ... except Exception] is [catch].
    - The main loop threads its globals through a state-and-exception
      monad [M]; console output, sleeps, garbage collection, the panel and
      the reset primitive are recorded in a chronological trace.
    - Strings are sequences of one-byte characters (the feed's fields that
      the program inspects are ASCII). *)

From Stdlib Require Import ZArith List String Ascii Bool Arith Lia.
From Stdlib Require Import DecimalString Permutation Finite QArith Sorted.
Import ListNotations.

Local Open Scope string_scope.
Local Open Scope Z_scope.

Set Warnings "-register-all".

(* ================================================================== *)
(** ** Python values and exceptions *)
(* ================================================================== *)

Module Py.

(** The subclasses of [Exception] the program can meet.  All of them are
    caught by [except Exception]; [MemoryError] is the only one the main
    loop tells apart. *)
Inductive exn : Type :=
| KeyError | TypeError | IndexError | AttributeError | ValueError
| OverflowError | MemoryError | OSError | RuntimeError.

Definition is_MemoryError (e : exn) : bool :=
  match e with MemoryError => true | _ => false end.

(** What [json()] can return.  A dict is its list of items in insertion
    order (keys pairwise distinct; lookup takes the first match).  A float
    is kept as what the program can observe of it: whether it is non-zero
    and the text [str()] prints for it. *)
Inductive pyval : Type :=
| PNone
| PBool (b : bool)
| PInt (z : Z)
| PFloat (nonzero : bool) (shown : string)
| PStr (s : string)
| PList (items : list pyval)
| PDict (items : list (string * pyval)).

(** Computations that return or raise. *)
Inductive res (A : Type) : Type :=
| Ok (a : A)
| Raise (e : exn).
Arguments Ok {A} a.
Arguments Raise {A} e.

Definition bind {A B} (c : res A) (k : A -> res B) : res B :=
  match c with Ok a => k a | Raise e => Raise e end.

(** [try: c  except Exception: h] *)
Definition catch {A} (c : res A) (h : exn -> A) : A :=
  match c with Ok a => a | Raise e => h e end.

Fixpoint lookup (k : string) (items : list (string * pyval)) : option pyval :=
  match items with
  | [] => None
  | (k', v) :: rest => if String.eqb k k' then Some v else lookup k rest
  end.

(** [v[k]] for a string key [k]. *)
Definition getitem (v : pyval) (k : string) : res pyval :=
  match v with
  | PDict items =>
      match lookup k items with Some x => Ok x | None => Raise KeyError end
  | _ => Raise TypeError
  end.

(** [v[i]] for a non-negative integer [i].  A dict built from JSON has
    string keys only, so an integer key is never present. *)
Definition getindex (v : pyval) (i : nat) : res pyval :=
  match v with
  | PList items =>
      match nth_error items i with Some x => Ok x | None => Raise IndexError end
  | PStr s =>
      match String.get i s with
      | Some c => Ok (PStr (String c EmptyString))
      | None => Raise IndexError
      end
  | PDict _ => Raise KeyError
  | _ => Raise TypeError
  end.

(** [v.get(k, default)]: only dicts have the method. *)
Definition get (v : pyval) (k : string) (default : pyval) : res pyval :=
  match v with
  | PDict items =>
      Ok (match lookup k items with Some x => x | None => default end)
  | _ => Raise AttributeError
  end.

Definition len (v : pyval) : res nat :=
  match v with
  | PList items => Ok (List.length items)
  | PStr s => Ok (String.length s)
  | PDict items => Ok (List.length items)
  | _ => Raise TypeError
  end.

Fixpoint chars (s : string) : list pyval :=
  match s with
  | EmptyString => []
  | String c rest => PStr (String c EmptyString) :: chars rest
  end.

(** The sequence a [for] loop walks: list items, dict keys, string
    characters. *)
Definition iter (v : pyval) : res (list pyval) :=
  match v with
  | PList items => Ok items
  | PStr s => Ok (chars s)
  | PDict items => Ok (map (fun kv => PStr (fst kv)) items)
  | _ => Raise TypeError
  end.

(** Truth value, as in [x if x else y]. *)
Definition truthy (v : pyval) : bool :=
  match v with
  | PNone => false
  | PBool b => b
  | PInt z => negb (Z.eqb z 0)
  | PFloat nz _ => nz
  | PStr s => negb (String.eqb s "")
  | PList items => match items with [] => false | _ => true end
  | PDict items => match items with [] => false | _ => true end
  end.

(** [v == "literal"] *)
Definition eq_str (v : pyval) (lit : string) : bool :=
  match v with PStr s => String.eqb s lit | _ => false end.

(** Decimal text of an integer, as [str()] and [f"{n}"] print it. *)
Definition dec (z : Z) : string := NilZero.string_of_int (Z.to_int z).

(** *** Text helpers *)

Definition quote1 : ascii := ascii_of_nat 39.      (* ' *)
Definition quote2 : ascii := ascii_of_nat 34.      (* double quote *)
Definition backslash : ascii := ascii_of_nat 92.

Definition str1 (c : ascii) : string := String c EmptyString.

Definition hex_digit (n : nat) : ascii :=
  nth n (list_ascii_of_string "0123456789abcdef") "0"%char.

Fixpoint contains (q : ascii) (s : string) : bool :=
  match s with
  | EmptyString => false
  | String c rest => Ascii.eqb c q || contains q rest
  end.

(** One character inside a quoted string, as [repr] escapes it. *)
Definition repr_char (q c : ascii) : string :=
  let n := nat_of_ascii c in
  if Ascii.eqb c q then String backslash (str1 q)
  else if Ascii.eqb c backslash then String backslash (str1 backslash)
  else if ((32 <=? n) && negb (n =? 127))%nat then str1 c
  else if (n =? 10)%nat then String backslash "n"
  else if (n =? 13)%nat then String backslash "r"
  else if (n =? 9)%nat then String backslash "t"
  else String backslash
         (String "x" (String (hex_digit (n / 16)) (str1 (hex_digit (n mod 16))))).

Fixpoint repr_chars (q : ascii) (s : string) : string :=
  match s with
  | EmptyString => EmptyString
  | String c rest => repr_char q c ++ repr_chars q rest
  end.

(** [repr] of a string: single quotes, unless the text has a single
    quote and no double quote. *)
Definition repr_str (s : string) : string :=
  let q := if contains quote1 s && negb (contains quote2 s) then quote2 else quote1 in
  str1 q ++ repr_chars q s ++ str1 q.

Fixpoint repr (v : pyval) : string :=
  match v with
  | PNone => "None"
  | PBool true => "True"
  | PBool false => "False"
  | PInt z => dec z
  | PFloat _ shown => shown
  | PStr s => repr_str s
  | PList items =>
      "[" ++ (fix go (l : list pyval) : string :=
                match l with
                | [] => EmptyString
                | x :: rest =>
                    match rest with
                    | [] => repr x
                    | _ :: _ => repr x ++ ", " ++ go rest
                    end
                end) items ++ "]"
  | PDict items =>
      "{" ++ (fix go (l : list (string * pyval)) : string :=
                match l with
                | [] => EmptyString
                | (k, x) :: rest =>
                    match rest with
                    | [] => repr_str k ++ ": " ++ repr x
                    | _ :: _ => repr_str k ++ ": " ++ repr x ++ ", " ++ go rest
                    end
                end) items ++ "}"
  end.

(** [str(v)]: a string is itself, anything else prints as its [repr]. *)
Definition str (v : pyval) : string :=
  match v with PStr s => s | _ => repr v end.

(** [s.upper()] on ASCII letters. *)
Definition upper_char (c : ascii) : ascii :=
  let n := nat_of_ascii c in
  if ((97 <=? n) && (n <=? 122))%nat then ascii_of_nat (n - 32) else c.

Fixpoint upper (s : string) : string :=
  match s with
  | EmptyString => EmptyString
  | String c rest => String (upper_char c) (upper rest)
  end.

(** *** [int(text)] *)

(** White space as [int()] strips it: the blank, the controls 9 to 13
    and, beyond ASCII, the next-line control 133 and the no-break space
    160 (a character is a code point below 256). *)
Definition is_space (c : ascii) : bool :=
  let n := nat_of_ascii c in
  ((n =? 32) || ((9 <=? n) && (n <=? 13)) || (n =? 133) || (n =? 160))%nat.

Definition is_digit (c : ascii) : bool :=
  let n := nat_of_ascii c in ((48 <=? n) && (n <=? 57))%nat.

Definition digit_val (c : ascii) : Z := Z.of_nat (nat_of_ascii c) - 48.

Fixpoint lstrip (s : string) : string :=
  match s with
  | String c rest => if is_space c then lstrip rest else s
  | EmptyString => EmptyString
  end.

Fixpoint rstrip (s : string) : string :=
  match s with
  | EmptyString => EmptyString
  | String c rest =>
      match rstrip rest with
      | EmptyString => if is_space c then EmptyString else str1 c
      | r => String c r
      end
  end.

(** The digits of a number, read after its first digit has been seen:
    a digit extends the number, and one underscore may stand between
    two digits. *)
Fixpoint digits (acc : Z) (s : string) : option Z :=
  match s with
  | EmptyString => Some acc
  | String c rest =>
      if is_digit c then digits (10 * acc + digit_val c) rest
      else if Ascii.eqb c "_" then
        match rest with
        | String d _ => if is_digit d then digits acc rest else None
        | EmptyString => None
        end
      else None
  end.

(** [int(s)] in base ten: surrounding white space is dropped, one sign
    may lead, then a digit, and after it digits with single underscores
    allowed between them, and nothing else.  No code point from 128 to
    255 is a decimal digit; digits beyond 255 cannot occur in a
    [string]. *)
Definition int_of_str (s : string) : res Z :=
  let t := rstrip (lstrip s) in
  let '(sign, body) :=
    match t with
    | String c rest =>
        if Ascii.eqb c "-" then (-1, rest)
        else if Ascii.eqb c "+" then (1, rest)
        else (1, t)
    | EmptyString => (1, t)
    end in
  match body with
  | EmptyString => Raise ValueError
  | String c _ =>
      if is_digit c then
        match digits 0 body with
        | Some n => Ok (sign * n)
        | None => Raise ValueError
        end
      else Raise ValueError
  end.

(** [int(v[a:b])]: only a string can be sliced and then read as a
    number; a list slices to a list, which [int] refuses, and nothing
    else can be sliced. *)
Definition int_slice (v : pyval) (a b : nat) : res Z :=
  match v with
  | PStr s => int_of_str (substring a (b - a) s)
  | _ => Raise TypeError
  end.

(** [f"{n:02d}"] for [n >= 0]. *)
Definition dec02 (n : Z) : string :=
  if n <? 10 then "0" ++ dec n else dec n.

End Py.

Import Py.

Notation "x <- c ;; k" := (Py.bind c (fun x => k))
  (at level 61, c at next level, right associativity).

(* ================================================================== *)
(** ** adafruit_ticks *)
(* ================================================================== *)

(** Modelled from the spec: the tick helpers [ticks_add] and
    [ticks_diff] are imported from the library [adafruit_ticks], whose
    source is not among the program's files.  The tick counter is
    fixed-width and wraps; the definitions below are the library's: a
    29-bit millisecond counter, addition modulo the period, and the
    signed difference of two counter values taken through the half
    period. *)
Module Ticks.

Definition TICKS_PERIOD : Z := Z.shiftl 1 29.
Definition TICKS_MAX : Z := TICKS_PERIOD - 1.
Definition TICKS_HALFPERIOD : Z := TICKS_PERIOD / 2.

(** Modelled from the spec: [ticks_add(ticks, delta)] of
    [adafruit_ticks], addition with wraparound at the period. *)
Definition ticks_add (ticks delta : Z) : Z := (ticks + delta) mod TICKS_PERIOD.

(** Modelled from the spec: [ticks_diff(ticks1, ticks2)] of
    [adafruit_ticks], the wraparound-safe signed difference. *)
Definition ticks_diff (ticks1 ticks2 : Z) : Z :=
  let diff := Z.land (ticks1 - ticks2) TICKS_MAX in
  Z.land (diff + TICKS_HALFPERIOD) TICKS_MAX - TICKS_HALFPERIOD.

(** A value the counter can hold. *)
Definition is_tick (t : Z) : Prop := 0 <= t < TICKS_PERIOD.

(** The wraparound-safe difference in words: the representative of
    [a - b] modulo the period that lies in the half-open window
    [-HALFPERIOD, HALFPERIOD). *)
Definition wrap_diff (a b : Z) : Z :=
  (a - b + TICKS_HALFPERIOD) mod TICKS_PERIOD - TICKS_HALFPERIOD.

End Ticks.

Import Ticks.


(* ================================================================== *)
(** ** adafruit_datetime *)
(* ================================================================== *)

(** Modelled from the spec: [datetime] and [timedelta] are imported from
    the library [adafruit_datetime] (a port of CPython's pure-Python
    [datetime]), whose source is not among the program's files.  What
    the program uses of it is building a [datetime] from five integers
    and adding a [timedelta] of whole hours to it.  The ordinal
    arithmetic is the library's ([_ymd2ord], [_ord2ymd]); day 1 is
    0001-01-01 of the proleptic Gregorian calendar. *)
Module Datetime.

Definition MINYEAR : Z := 1.
Definition MAXYEAR : Z := 9999.
Definition MAXORDINAL : Z := 3652059.

Definition DAYS_IN_MONTH : list Z :=
  [-1; 31; 28; 31; 30; 31; 30; 31; 31; 30; 31; 30; 31].
Definition DAYS_BEFORE_MONTH : list Z :=
  [-1; 0; 31; 59; 90; 120; 151; 181; 212; 243; 273; 304; 334].

Definition tbl (t : list Z) (i : Z) : Z := nth (Z.to_nat i) t 0.

Definition is_leap (year : Z) : bool :=
  (year mod 4 =? 0) && (negb (year mod 100 =? 0) || (year mod 400 =? 0)).

Definition days_before_year (year : Z) : Z :=
  let y := year - 1 in
  y * 365 + y / 4 - y / 100 + y / 400.

Definition days_in_month (year month : Z) : Z :=
  if (month =? 2) && is_leap year then 29 else tbl DAYS_IN_MONTH month.

Definition days_before_month (year month : Z) : Z :=
  tbl DAYS_BEFORE_MONTH month + (if (month >? 2) && is_leap year then 1 else 0).

Definition ymd2ord (year month day : Z) : Z :=
  days_before_year year + days_before_month year month + day.

Definition DI400Y : Z := days_before_year 401.
Definition DI100Y : Z := days_before_year 101.
Definition DI4Y : Z := days_before_year 5.

Definition ord2ymd (n : Z) : Z * Z * Z :=
  let n := n - 1 in
  let n400 := n / DI400Y in
  let n := n mod DI400Y in
  let year := n400 * 400 + 1 in
  let n100 := n / DI100Y in
  let n := n mod DI100Y in
  let n4 := n / DI4Y in
  let n := n mod DI4Y in
  let n1 := n / 365 in
  let n := n mod 365 in
  let year := year + (n100 * 100 + n4 * 4 + n1) in
  if (n1 =? 4) || (n100 =? 4) then (year - 1, 12, 31)
  else
    let leapyear := (n1 =? 3) && (negb (n4 =? 24) || (n100 =? 3)) in
    let month := Z.shiftr (n + 50) 5 in
    let preceding :=
      tbl DAYS_BEFORE_MONTH month + (if (month >? 2) && leapyear then 1 else 0) in
    if preceding >? n then
      let month := month - 1 in
      let preceding :=
        preceding
        - (tbl DAYS_IN_MONTH month + (if (month =? 2) && leapyear then 1 else 0)) in
      (year, month, n - preceding + 1)
    else (year, month, n - preceding + 1).

Record datetime : Type := mk_datetime {
  year : Z; month : Z; day : Z; hour : Z; minute : Z
}.

(** A calendar date and a time of day the constructor accepts. *)
Definition valid_fields (y mo d h mi : Z) : bool :=
  (MINYEAR <=? y) && (y <=? MAXYEAR)
  && (1 <=? mo) && (mo <=? 12)
  && (1 <=? d) && (d <=? days_in_month y mo)
  && (0 <=? h) && (h <=? 23)
  && (0 <=? mi) && (mi <=? 59).

(** Modelled from the spec: [datetime(y, mo, d, h, mi)], which refuses
    fields that name no date or no time of day. *)
Definition make (y mo d h mi : Z) : res datetime :=
  if valid_fields y mo d h mi then Ok (mk_datetime y mo d h mi)
  else Raise ValueError.

(** Modelled from the spec: [dt + timedelta(hours=hours)].  The sum is
    normalised to whole days and seconds of the day; a day outside
    [1, MAXORDINAL] is an [OverflowError]. *)
Definition add_hours (dt : datetime) (hours : Z) : res datetime :=
  let total :=
    ymd2ord (year dt) (month dt) (day dt) * 86400
    + hour dt * 3600 + minute dt * 60 + hours * 3600 in
  let days := total / 86400 in
  let seconds := total mod 86400 in
  let h := seconds / 3600 in
  let rem := seconds mod 3600 in
  let mi := rem / 60 in
  if (0 <? days) && (days <=? MAXORDINAL) then
    let '(y, mo, d) := ord2ymd days in
    Ok (mk_datetime y mo d h mi)
  else Raise OverflowError.

(** The month and the day of the month of the [n]-th day (counted from
    0) of a year, the last step of [ord2ymd] taken on its own, and the
    check of it against the tables that the proofs run over a year. *)
Definition month_day (n : Z) (leapyear : bool) : Z * Z :=
  let month := Z.shiftr (n + 50) 5 in
  let preceding :=
    tbl DAYS_BEFORE_MONTH month + (if (month >? 2) && leapyear then 1 else 0) in
  if preceding >? n then
    let month := month - 1 in
    let preceding :=
      preceding
      - (tbl DAYS_IN_MONTH month + (if (month =? 2) && leapyear then 1 else 0)) in
    (month, n - preceding + 1)
  else (month, n - preceding + 1).

Definition month_day_ok (leapyear : bool) (n : Z) : bool :=
  let '(m, d) := month_day n leapyear in
  (1 <=? m) && (m <=? 12) && (1 <=? d)
  && (d <=? (if (m =? 2) && leapyear then 29 else tbl DAYS_IN_MONTH m))
  && (tbl DAYS_BEFORE_MONTH m + (if (m >? 2) && leapyear then 1 else 0) + d =? n + 1).

Definition days_of_year : list Z := map Z.of_nat (seq 0 365).

(** Minutes since the start of day 0, the scale on which adding an
    offset is plain addition. *)
Definition minutes_of (y mo d h mi : Z) : Z :=
  ymd2ord y mo d * 1440 + h * 60 + mi.

End Datetime.

(* ================================================================== *)
(** ** Configuration *)
(* ================================================================== *)

Definition timezone_offset : Z := -5.        (* timezone_info[0] *)
Definition sport_names : list string := ["football"; "baseball"; "hockey"; "basketball"].
Definition sport_leagues : list string := ["nfl"; "mlb"; "nhl"; "nba"].
Definition fetch_interval : Z := 300.
Definition display_interval : Z := 5.
Definition fetch_interval_ms : Z := fetch_interval * 1000.
Definition display_interval_ms : Z := display_interval * 1000.

(** The scheduler's two tests, [ticks_diff(current_time, clock) >= interval_ms]. *)
Definition elapsed (deadline now interval : Z) : bool :=
  ticks_diff now deadline >=? interval.

Definition fetch_due (fetch_clock current_time : Z) : bool :=
  elapsed fetch_clock current_time fetch_interval_ms.

Definition display_due (display_clock current_time : Z) : bool :=
  elapsed display_clock current_time display_interval_ms.

(* ================================================================== *)
(** ** Helper functions *)
(* ================================================================== *)

(** [convert_date_format(date_str, tz_info)], with [tz] for [tz_info[0]].
    The whole body sits in [try ... except Exception: return "TBD"]. *)
Definition convert_date_format_body (date_str : pyval) (tz : Z) : res string :=
  year <- int_slice date_str 0 4 ;;
  month <- int_slice date_str 5 7 ;;
  day <- int_slice date_str 8 10 ;;
  hour <- int_slice date_str 11 13 ;;
  minute <- int_slice date_str 14 16 ;;
  dt <- Datetime.make year month day hour minute ;;
  dt_adjusted <- Datetime.add_hours dt tz ;;
  let month := Datetime.month dt_adjusted in
  let day := Datetime.day dt_adjusted in
  let hour := Datetime.hour dt_adjusted in
  let minute := Datetime.minute dt_adjusted in
  let am_pm := if hour <? 12 then "AM" else "PM" in
  let hour_12 := if hour <=? 12 then hour else hour - 12 in
  let hour_12 := if hour_12 =? 0 then 12 else hour_12 in
  Ok (dec month ++ "/" ++ dec day ++ " " ++ dec hour_12 ++ ":" ++ dec02 minute ++ am_pm).

Definition convert_date_format (date_str : pyval) (tz : Z) : string :=
  catch (convert_date_format_body date_str tz) (fun _ => "TBD").

(** The date conversion in the words of its description.  The five
    fields sit at fixed places of the text; a well-formed timestamp has
    digits there, the separators [-], [-], [T], [:] between them, and
    names a date and a time that exist. *)
Definition num2 (a b : ascii) : Z := 10 * digit_val a + digit_val b.

Definition num4 (a b c d : ascii) : Z :=
  1000 * digit_val a + 100 * digit_val b + 10 * digit_val c + digit_val d.

Definition date_fields (s : string) : option (Z * Z * Z * Z * Z) :=
  match list_ascii_of_string s with
  | y1 :: y2 :: y3 :: y4 :: _ :: m1 :: m2 :: _ :: d1 :: d2 :: _
       :: h1 :: h2 :: _ :: n1 :: n2 :: _ =>
      if forallb is_digit [y1; y2; y3; y4; m1; m2; d1; d2; h1; h2; n1; n2]
      then Some (num4 y1 y2 y3 y4, num2 m1 m2, num2 d1 d2, num2 h1 h2, num2 n1 n2)
      else None
  | _ => None
  end.

Definition separators (s : string) : bool :=
  match list_ascii_of_string s with
  | _ :: _ :: _ :: _ :: a :: _ :: _ :: b :: _ :: _ :: c :: _ :: _ :: d :: _ =>
      Ascii.eqb a "-" && Ascii.eqb b "-" && Ascii.eqb c "T" && Ascii.eqb d ":"
  | _ => false
  end.

Definition well_formed_timestamp (s : string) : bool :=
  separators s
  && match date_fields s with
     | Some (y, mo, d, h, mi) => Datetime.valid_fields y mo d h mi
     | None => false
     end.

(** The text of a local time on the twelve-hour clock. *)
Definition hour12 (h : Z) : Z := if h mod 12 =? 0 then 12 else h mod 12.

Definition am_pm (h : Z) : string := if h <? 12 then "AM" else "PM".

Definition local_text (mo d h mi : Z) : string :=
  dec mo ++ "/" ++ dec d ++ " " ++ dec (hour12 h) ++ ":" ++ dec02 mi ++ am_pm h.

(** The adjusted instant is a minute of the calendar the library can
    hold (days 1 to [MAXORDINAL]). *)
Definition in_calendar (minutes : Z) : bool :=
  (1440 <=? minutes) && (minutes <? (Datetime.MAXORDINAL + 1) * 1440).

(** A field no [int()] reads: it is empty, or it holds an ASCII
    character that is not a digit, white space (including the four
    separator controls 28 to 31, which some implementations strip), a
    sign or an underscore. *)
Definition plain_char (c : ascii) : bool :=
  let n := nat_of_ascii c in
  is_digit c || is_space c || Ascii.eqb c "-" || Ascii.eqb c "+" || Ascii.eqb c "_"
  || ((28 <=? n) && (n <=? 31))%nat || (128 <=? n)%nat.

Definition unreadable (f : string) : bool :=
  match f with
  | EmptyString => true
  | _ => negb (forallb plain_char (list_ascii_of_string f))
  end.

Definition all_digits (s : string) : bool :=
  forallb is_digit (list_ascii_of_string s).

Definition field_texts (s : string) : list string :=
  [substring 0 4 s; substring 5 2 s; substring 8 2 s;
   substring 11 2 s; substring 14 2 s].

(** The dictionary [parse_game] returns.  The team names and the status
    are stored as they came from the feed; the scores went through
    [str()] and the league through [upper()]. *)
Record game : Type := mk_game {
  league : string;
  league_idx : nat;
  home_team : pyval;
  away_team : pyval;
  home_score : string;
  away_score : string;
  status : pyval;
  is_final : bool;
  is_live : bool;
  is_scheduled : bool
}.

Definition list_index {A} (l : list A) (i : nat) : res A :=
  match nth_error l i with Some x => Ok x | None => Raise IndexError end.

Definition display_status_of (status_name status_detail game_date : pyval) : pyval :=
  if eq_str status_name "STATUS_FINAL" then PStr "FINAL"
  else if eq_str status_name "STATUS_IN_PROGRESS" then status_detail
  else if eq_str status_name "STATUS_SCHEDULED" then
    PStr (convert_date_format game_date timezone_offset)
  else if eq_str status_name "STATUS_POSTPONED" then PStr "POSTPONED"
  else if eq_str status_name "STATUS_CANCELED" then PStr "CANCELED"
  else if truthy status_detail then status_detail else PStr "SCHEDULED".

(** The [try] block of [parse_game]; [Ok None] is its [return None]. *)
Definition parse_game_body (event : pyval) (league_idx : nat) : res (option game) :=
  competitions <- getitem event "competitions" ;;
  competition <- getindex competitions 0 ;;
  competitors <- getitem competition "competitors" ;;
  n <- len competitors ;;
  if negb (n =? 2)%nat then Ok None else
  c0 <- getindex competitors 0 ;;
  t0 <- getitem c0 "team" ;;
  home_team <- getitem t0 "abbreviation" ;;
  c1 <- getindex competitors 1 ;;
  t1 <- getitem c1 "team" ;;
  away_team <- getitem t1 "abbreviation" ;;
  home_score <- get c0 "score" (PStr "0") ;;
  away_score <- get c1 "score" (PStr "0") ;;
  st <- getitem event "status" ;;
  status_type <- getitem st "type" ;;
  status_name <- get status_type "name" (PStr "STATUS_SCHEDULED") ;;
  status_detail <- get status_type "shortDetail" (PStr "") ;;
  game_date <- get event "date" (PStr "") ;;
  let display_status := display_status_of status_name status_detail game_date in
  lg <- list_index sport_leagues league_idx ;;
  Ok (Some {|
    league := upper lg;
    league_idx := league_idx;
    home_team := home_team;
    away_team := away_team;
    home_score := str home_score;
    away_score := str away_score;
    status := display_status;
    is_final := eq_str status_name "STATUS_FINAL";
    is_live := eq_str status_name "STATUS_IN_PROGRESS";
    is_scheduled := eq_str status_name "STATUS_SCHEDULED"
  |}).

(** [parse_game(event, league_idx)]: any exception becomes [None]. *)
Definition parse_game (event : pyval) (league_idx : nat) : option game :=
  catch (parse_game_body event league_idx) (fun _ => None).

(** The feed's interface in the words of its description: a field of an
    event is reached by a path of keys and positions, for instance
    [status.type.name] or [competitions[0].competitors[1]]. *)
Inductive hop : Type :=
| Key (k : string)
| Pos (i : nat).

Fixpoint at_path (v : pyval) (path : list hop) : option pyval :=
  match path with
  | [] => Some v
  | Key k :: rest =>
      match v with
      | PDict items =>
          match lookup k items with
          | Some x => at_path x rest
          | None => None
          end
      | _ => None
      end
  | Pos i :: rest =>
      match v with
      | PList items =>
          match nth_error items i with
          | Some x => at_path x rest
          | None => None
          end
      | _ => None
      end
  end.

Definition status_code (event : pyval) : option pyval :=
  at_path event [Key "status"; Key "type"; Key "name"].

Definition short_detail (event : pyval) : option pyval :=
  at_path event [Key "status"; Key "type"; Key "shortDetail"].

Definition event_date (event : pyval) : option pyval :=
  at_path event [Key "date"].


Definition score_field (event : pyval) (k : nat) : option pyval :=
  at_path event [Key "competitions"; Pos 0; Key "competitors"; Pos k; Key "score"].

Definition or_default (d : pyval) (o : option pyval) : pyval :=
  match o with Some v => v | None => d end.

(** The five status codes the normalizer knows by name. *)
Definition known_codes : list string :=
  ["STATUS_FINAL"; "STATUS_IN_PROGRESS"; "STATUS_SCHEDULED";
   "STATUS_POSTPONED"; "STATUS_CANCELED"].

Definition known_code (c : pyval) : Prop :=
  exists s, c = PStr s /\ In s known_codes.

(** Sample events, shaped as the feed sends them. *)
Definition sample_competitor (abbr : string) (fields : list (string * pyval)) : pyval :=
  PDict (("team", PDict [("abbreviation", PStr abbr)]) :: fields).

Definition sample_event (code detail : string)
           (home away : list (string * pyval)) : pyval :=
  PDict [ ("date", PStr "2024-01-15T00:30Z");
          ("competitions",
            PList [PDict [("competitors",
                            PList [sample_competitor "KC" home;
                                   sample_competitor "BUF" away])]]);
          ("status", PDict [("type", PDict [("name", PStr code);
                                            ("shortDetail", PStr detail)])]) ].

Definition sample_game (code detail hs aws : string) (st : pyval) : game :=
  {| league := "NFL"; league_idx := 0;
     home_team := PStr "KC"; away_team := PStr "BUF";
     home_score := hs; away_score := aws;
     status := st;
     is_final := String.eqb code "STATUS_FINAL";
     is_live := String.eqb code "STATUS_IN_PROGRESS";
     is_scheduled := String.eqb code "STATUS_SCHEDULED" |}.

(* ================================================================== *)
(** ** The fetch pipeline *)
(* ================================================================== *)

(** What one league's request gives: an exception out of
    [requests.get], [resp.json()] or [resp.close()], or the decoded
    document. *)
Inductive league_feed : Type :=
| Failed (e : exn)
| Body (data : pyval).

(** The network as one pipeline run sees it. *)
Definition network : Type := string -> league_feed.

Definition SPORT_URLS : list string :=
  map (fun i =>
         "https://site.api.espn.com/apis/site/v2/sports/"
         ++ nth i sport_names EmptyString ++ "/"
         ++ nth i sport_leagues EmptyString ++ "/scoreboard")
      (seq 0 (List.length sport_leagues)).

Fixpoint enumerate_from {A} (i : nat) (l : list A) : list (nat * A) :=
  match l with
  | [] => []
  | x :: rest => (i, x) :: enumerate_from (S i) rest
  end.

Definition enumerate {A} (l : list A) : list (nat * A) := enumerate_from 0 l.

(** The statements of the outer [try] up to the event loop: the request,
    [data.get("events", [])], the [len(events)] of the progress line, and
    the sequence the [for] walks. *)
Definition request_events (feed : league_feed) : res (list pyval) :=
  data <- match feed with Failed e => Raise e | Body d => Ok d end ;;
  events <- get data "events" (PList []) ;;
  _ <- len events ;;
  iter events.

(** One turn of [for event in events], on the accumulator [all_games]. *)
Definition event_step (league_idx : nat) (all_games : list game) (event : pyval)
  : list game :=
  catch (Ok (match parse_game event league_idx with
             | Some game => (all_games ++ [game])%list
             | None => all_games
             end))
        (fun _ => all_games).

(** One turn of [for league_idx, url in enumerate(SPORT_URLS)].  The
    lookup of the league name is outside the [try]; nothing after the
    first append can raise, so the handler sees [all_games] as it was
    when the league began. *)
Definition league_step (net : network) (all_games : list game)
           (item : nat * string) : res (list game) :=
  let '(league_idx, url) := item in
  _ <- list_index sport_leagues league_idx ;;
  Ok (catch (events <- request_events (net url) ;;
             Ok (fold_left (event_step league_idx) events all_games))
            (fun _ => all_games)).

Fixpoint leagues_loop (net : network) (items : list (nat * string))
         (all_games : list game) : res (list game) :=
  match items with
  | [] => Ok all_games
  | item :: rest =>
      all_games' <- league_step net all_games item ;;
      leagues_loop net rest all_games'
  end.

Definition fetch_all_games (net : network) : res (list game) :=
  leagues_loop net (enumerate SPORT_URLS) [].

(** The pipeline in the words of its contract: a league that was fetched
    and decoded into a sequence of events contributes the events the
    normalizer accepts, in order; any other league contributes nothing. *)
Definition accepted (league_idx : nat) (events : list pyval) : list game :=
  flat_map (fun event =>
              match parse_game event league_idx with
              | Some game => [game]
              | None => []
              end) events.

Definition league_games (net : network) (item : nat * string) : list game :=
  match request_events (net (snd item)) with
  | Ok events => accepted (fst item) events
  | Raise _ => []
  end.

Definition pipeline_spec (net : network) : list game :=
  List.concat (map (league_games net) (enumerate SPORT_URLS)).

(** The same contract read off the response alone, with none of the
    code's steps: a league is fetched and decoded when its response is
    an object, and its events are the list stored under ["events"];
    a response of any other kind has no events. *)
Definition scoreboard_events (feed : league_feed) : list pyval :=
  match feed with
  | Body (PDict items) =>
      match lookup "events" items with
      | Some (PList events) => events
      | _ => []
      end
  | _ => []
  end.

(** The games the normalizer makes of a list of events: the results
    that are games, in the order of the events. *)
Definition normalized (league_idx : nat) (events : list pyval) : list (option game) :=
  filter (fun o => match o with Some _ => true | None => false end)
         (map (fun event => parse_game event league_idx) events).

Definition league_contribution (net : network) (item : nat * string) : list game :=
  flat_map (fun o => match o with Some game => [game] | None => [] end)
           (normalized (fst item) (scoreboard_events (net (snd item)))).

(* ================================================================== *)
(** ** The main program *)
(* ================================================================== *)

(** What the panel shows ([display.root_group]). *)
Inductive screen : Type :=
| ScreenStartup                 (* show_startup() *)
| ScreenNoGames                 (* show_no_games() *)
| ScreenGame (g : game).        (* build_game_display(game) *)

(** Console lines of the main program. *)
Inductive line : Type :=
| LineNoGamesInitial            (* "No games found on initial fetch" *)
| LineRefreshing                (* "Refreshing game data..." *)
| LineShowing (g : game)        (* "Showing: ..." *)
| LineMemoryError               (* "Memory error - resetting..." *)
| LineMainLoopError (e : exn).  (* "Error in main loop: ..." *)

(** What the program does to the world, in order. *)
Inductive action : Type :=
| Print (l : line)
| GcCollect                     (* gc.collect() *)
| Sleep (ms : Z)                (* time.sleep(ms / 1000) *)
| Fetch                         (* a call of fetch_all_games() *)
| Show (s : screen)             (* display.root_group = ... *)
| Reset.                        (* microcontroller.reset() *)

Definition is_Reset (a : action) : bool :=
  match a with Reset => true | _ => false end.

Definition is_Fetch (a : action) : bool :=
  match a with Fetch => true | _ => false end.

Definition is_Print (a : action) : bool :=
  match a with Print _ => true | _ => false end.

Definition count (p : action -> bool) (t : list action) : nat :=
  List.length (filter p t).

(** The globals of the main loop. *)
Record state : Type := mk_state {
  games : list game;
  fetch_clock : Z;
  display_clock : Z;
  game_index : nat;
  root_group : screen
}.

(** What one pass of the loop meets outside the program: the reading of
    [ticks_ms()], the network should a refresh run, and the exception,
    if any, that building a screen raises in this pass (typically
    [MemoryError] while allocating labels). *)
Record env : Type := mk_env {
  ticks_ms : Z;
  net : network;
  panel_fault : option exn
}.

(** State, trace and exceptions.  The globals keep the assignments made
    before an exception; the trace lists the actions done so far. *)
Definition M (A : Type) : Type := state -> res A * state * list action.

Definition ret {A} (a : A) : M A := fun s => (Ok a, s, []).

Definition mbind {A B} (m : M A) (k : A -> M B) : M B :=
  fun s =>
    let '(r, s1, t1) := m s in
    match r with
    | Ok a => let '(r2, s2, t2) := k a s1 in (r2, s2, (t1 ++ t2)%list)
    | Raise e => (Raise e, s1, t1)
    end.

Notation "'do' x <- c ; k" := (mbind c (fun x => k))
  (at level 61, x name, c at next level, right associativity).
Notation "c ;; k" := (mbind c (fun _ => k))
  (at level 61, right associativity).

Definition emit (a : action) : M unit := fun s => (Ok tt, s, [a]).
Definition gets {A} (f : state -> A) : M A := fun s => (Ok (f s), s, []).
Definition modify (f : state -> state) : M unit := fun s => (Ok tt, f s, []).
Definition lift {A} (r : res A) : M A := fun s => (r, s, []).

Definition set_games (g : list game) (s : state) : state :=
  mk_state g (fetch_clock s) (display_clock s) (game_index s) (root_group s).
Definition set_fetch_clock (t : Z) (s : state) : state :=
  mk_state (games s) t (display_clock s) (game_index s) (root_group s).
Definition set_display_clock (t : Z) (s : state) : state :=
  mk_state (games s) (fetch_clock s) t (game_index s) (root_group s).
Definition set_game_index (i : nat) (s : state) : state :=
  mk_state (games s) (fetch_clock s) (display_clock s) i (root_group s).
Definition set_root_group (g : screen) (s : state) : state :=
  mk_state (games s) (fetch_clock s) (display_clock s) (game_index s) g.

(** Building a screen and handing it to the display. *)
Definition show (e : env) (scr : screen) : M unit :=
  lift (match panel_fault e with Some x => Raise x | None => Ok tt end) ;;
  modify (set_root_group scr) ;;
  emit (Show scr).

Definition show_no_games (e : env) : M unit := show e ScreenNoGames.

Definition sleep (ms : Z) : M unit := emit (Sleep ms).

Definition call_fetch_all_games (e : env) : M (list game) :=
  emit Fetch ;; lift (fetch_all_games (net e)).

(** Lines 410-420: the refresh branch.  The result tells whether the
    branch ended in [continue]. *)
Definition refresh (e : env) : M bool :=
  emit (Print LineRefreshing) ;;
  emit GcCollect ;;
  do g <- call_fetch_all_games e ;
  modify (set_games g) ;;
  do fc <- gets fetch_clock ;
  modify (set_fetch_clock (ticks_add fc fetch_interval_ms)) ;;
  modify (set_game_index 0) ;;
  match g with
  | [] => show_no_games e ;; sleep 5000 ;; ret true
  | _ :: _ => ret false
  end.

(** Lines 424-434: show the game at the index, then advance the index. *)
Definition show_next_game (e : env) : M unit :=
  do g <- gets games ;
  match g with
  | [] => ret tt
  | _ :: _ =>
      do i <- gets game_index ;
      do game <- lift (list_index g i) ;
      emit (Print (LineShowing game)) ;;
      emit GcCollect ;;
      show e (ScreenGame game) ;;
      modify (set_game_index ((i + 1) mod List.length g)%nat)
  end.

(** Lines 423-439: the display branch and the idle sleep. *)
Definition display_and_idle (e : env) (current_time : Z) : M unit :=
  do dc <- gets display_clock ;
  (if display_due dc current_time then
     show_next_game e ;;
     do dc <- gets display_clock ;
     modify (set_display_clock (ticks_add dc display_interval_ms))
   else ret tt) ;;
  sleep 100.

(** The [try] block of one pass of [while True]. *)
Definition loop_body (e : env) : M unit :=
  let current_time := ticks_ms e in
  do fc <- gets fetch_clock ;
  do continue <- (if fetch_due fc current_time then refresh e else ret false) ;
  if continue then ret tt else display_and_idle e current_time.

(** The two handlers. *)
Definition recover (x : exn) : list action :=
  if is_MemoryError x then
    [Print LineMemoryError; GcCollect; Sleep 5000; Reset]
  else
    [Print (LineMainLoopError x); Sleep 10000; GcCollect; Sleep 5000; Reset].

(** How a pass ends: the loop goes on with new globals, or the device
    was reset and the run is over. *)
Inductive outcome : Type :=
| Running (s : state)
| Restarted.

Definition iteration (e : env) (s : state) : outcome * list action :=
  let '(r, s', t) := loop_body e s in
  match r with
  | Ok _ => (Running s', t)
  | Raise x => (Restarted, (t ++ recover x)%list)
  end.

(** A run over the passes [envs]; nothing happens after a reset. *)
Fixpoint run (envs : list env) (s : state) : list action :=
  match envs with
  | [] => []
  | e :: rest =>
      let '(o, t) := iteration e s in
      match o with
      | Running s' => (t ++ run rest s')%list
      | Restarted => t
      end
  end.

(** The same passes, with the globals they leave behind. *)
Fixpoint passes (envs : list env) (s : state) : outcome * list action :=
  match envs with
  | [] => (Running s, [])
  | e :: rest =>
      let '(o, t) := iteration e s in
      match o with
      | Running s' => let '(o', t') := passes rest s' in (o', (t ++ t')%list)
      | Restarted => (Restarted, t)
      end
  end.

(** Lines 380-399, with the two network states and the two clock
    readings the start-up meets (no exception is modelled here: the
    start-up is outside the loop's [try]). *)
Definition startup (net1 net2 : network) (t1 t2 : Z) : res state :=
  g <- fetch_all_games net1 ;;
  g' <- match g with
        | [] => fetch_all_games net2
        | _ :: _ => Ok g
        end ;;
  Ok (mk_state g' t1 t2 0
        (match g with [] => ScreenNoGames | _ :: _ => ScreenStartup end)).

(** The index is inside the installed list whenever there is one. *)
Definition index_ok (s : state) : Prop :=
  games s = [] \/ (game_index s < List.length (games s))%nat.

(** Display passes in a row, one per entry of [envs], with no refresh
    in between. *)
Fixpoint rotations (envs : list env) : M unit :=
  match envs with
  | [] => ret tt
  | e :: rest => show_next_game e ;; rotations rest
  end.

(** The games a trace put on the panel, in order. *)
Fixpoint shown (t : list action) : list game :=
  match t with
  | [] => []
  | Show (ScreenGame g) :: rest => g :: shown rest
  | _ :: rest => shown rest
  end.

(** The indices [n] rotation calls select when they start at index [i]
    of a list of length [L]. *)
Definition visited (L i n : nat) : list nat :=
  map (fun k => ((i + k) mod L)%nat) (seq 0 n).

(** Whether each timer fires in a pass: the fetch test is always made;
    the display test is made unless the refresh branch ended in
    [continue], which it does when the pipeline returned no game. *)
Definition fetch_fires (e : env) (s : state) : bool :=
  fetch_due (fetch_clock s) (ticks_ms e).

Definition display_fires (e : env) (s : state) : bool :=
  negb (fetch_fires e s && match pipeline_spec (net e) with [] => true | _ => false end)
  && display_due (display_clock s) (ticks_ms e).

(** Sample states and passes. *)
Definition game_A : game := sample_game "STATUS_FINAL" "Final" "21" "17" (PStr "FINAL").
Definition game_B : game := sample_game "STATUS_IN_PROGRESS" "Q3 5:42" "7" "3" (PStr "Q3 5:42").

Definition offline : network := fun _ => Failed OSError.

(** Two games installed, the second one next; both deadlines at tick 0. *)
Definition mid_rotation : state := mk_state [game_A; game_B] 0 0 1 (ScreenGame game_A).

(** A pass at tick [t] with the network down and the panel working. *)
Definition pass_offline (t : Z) : env := mk_env t offline None.

(** A pass at tick [t] in which building a screen raises [x]. *)
Definition pass_fault (t : Z) (x : exn) : env := mk_env t offline (Some x).

Definition panel_ok (e : env) : Prop := panel_fault e = None.

(** A network in which the first league answers with three events, one
    of them with a single competitor, the second league's request
    raises, the third answers with a document that is not an object,
    and the fourth answers with one event. *)
Definition broken_event : pyval :=
  PDict [ ("competitions",
            PList [PDict [("competitors", PList [sample_competitor "KC" []])]]);
          ("status", PDict [("type", PDict [("name", PStr "STATUS_FINAL")])]) ].

Definition mixed_network : network :=
  fun url =>
    if String.eqb url (nth 0 SPORT_URLS EmptyString) then
      Body (PDict [("events",
                    PList [sample_event "STATUS_FINAL" "Final"
                             [("score", PStr "21")] [("score", PStr "17")];
                           broken_event;
                           sample_event "STATUS_IN_PROGRESS" "Q3 5:42"
                             [("score", PStr "7")] [("score", PStr "3")]])])
    else if String.eqb url (nth 1 SPORT_URLS EmptyString) then Failed OSError
    else if String.eqb url (nth 2 SPORT_URLS EmptyString) then Body (PList [])
    else
      Body (PDict [("events",
                    PList [sample_event "STATUS_POSTPONED" "Postponed" [] []])]).

Definition game_C : game :=
  {| league := "NBA"; league_idx := 3;
     home_team := PStr "KC"; away_team := PStr "BUF";
     home_score := "0"; away_score := "0";
     status := PStr "POSTPONED";
     is_final := false; is_live := false; is_scheduled := false |}.

(* ================================================================== *)
(** ** The rest of the program *)
(* ================================================================== *)

(** *** [get_league_index] *)

(** [l.index(x)]: the first position holding a value equal to [x], or
    [ValueError]. *)
Fixpoint index_from (i : nat) (l : list string) (x : pyval) : res nat :=
  match l with
  | [] => Raise ValueError
  | y :: rest => if eq_str x y then Ok i else index_from (S i) rest x
  end.

Definition get_league_index (league : pyval) : nat :=
  catch (index_from 0 sport_leagues league) (fun _ => 0%nat).

(** *** The screens *)

Definition font_color : Z := 0xFFFFFF.
Definition logo_folders : list string :=
  ["team0_logos"; "team1_logos"; "team2_logos"; "team3_logos"].
Definition base_width : Z := 64.
Definition base_height : Z := 64.
Definition chain_across : Z := 2.
Definition tile_down : Z := 1.
Definition DISPLAY_WIDTH : Z := base_width * chain_across.
Definition DISPLAY_HEIGHT : Z := base_height * tile_down.

(** What a [displayio.Group] holds: a bitmap read from a file and placed
    with its top left corner at [(x, y)], or a label with its colour,
    its text, its anchor point (fractions of its own box) and the pixel
    the anchor is pinned to. *)
Inductive element : Type :=
| TileGrid (path : string) (x y : Z)
| Label (color : Z) (text : pyval) (anchor_point : Q * Q)
        (anchored_position : Z * Z).

Definition is_Label (el : element) : bool :=
  match el with Label _ _ _ _ => true | TileGrid _ _ _ => false end.

(** The files as one call of a screen builder meets them: what
    [displayio.OnDiskBitmap(path)] raises, if anything. *)
Definition files : Type := string -> option exn.

(** One of the two [try] blocks around a logo: the grid is appended when
    the bitmap loads, and the group is left as it was when it does not. *)
Definition load_logo (fs : files) (path : string) (x y : Z)
           (group : list element) : list element :=
  catch (match fs path with
         | Some e => Raise e
         | None => Ok (group ++ [TileGrid path x y])%list
         end)
        (fun _ => group).

Definition logo_path (folder : string) (team : pyval) : string :=
  "/" ++ folder ++ "/" ++ str team ++ ".bmp".

(** [build_game_display(game)].  The folder lookup is outside any
    [try]. *)
Definition build_game_display (fs : files) (game : game) : res (list element) :=
  let group := [] in
  folder <- list_index logo_folders (league_idx game) ;;
  let group := load_logo fs (logo_path folder (home_team game)) 4 4 group in
  let group := load_logo fs (logo_path folder (away_team game)) 92 4 group in
  let group :=
    (group ++ [Label 0xFFFF00 (PStr (league game)) (1 # 2, 0%Q)
                     (DISPLAY_WIDTH / 2, 2)])%list in
  let group :=
    (group ++ [Label font_color (home_team game) (1 # 2, 0%Q) (20, 38)])%list in
  let group :=
    (group ++ [Label font_color (away_team game) (1 # 2, 0%Q) (108, 38)])%list in
  let '(score_text, score_color) :=
    if is_scheduled game then ("VS", font_color)
    else (home_score game ++ " - " ++ away_score game,
          if is_live game then 0x00FF00 else font_color) in
  let group :=
    (group ++ [Label score_color (PStr score_text) (1 # 2, 1 # 2)
                     (DISPLAY_WIDTH / 2, 24)])%list in
  let group :=
    (group ++ [Label (if is_live game then 0xFF0000 else font_color)
                     (status game) (1 # 2, 1%Q)
                     (DISPLAY_WIDTH / 2, DISPLAY_HEIGHT - 2)])%list in
  Ok group.

(** The groups [show_startup()] and [show_no_games()] hand to the
    display. *)
Definition startup_group : list element :=
  [Label 0xFFFF00 (PStr "SPORTS TICKER") (1 # 2, 1 # 2) (DISPLAY_WIDTH / 2, 20);
   Label font_color (PStr "Loading...") (1 # 2, 1 # 2) (DISPLAY_WIDTH / 2, 40)].

Definition no_games_group : list element :=
  [Label font_color (PStr "NO GAMES TODAY") (1 # 2, 1 # 2)
         (DISPLAY_WIDTH / 2, DISPLAY_HEIGHT / 2)].

(** The group behind each screen of the main program. *)
Definition group_of (fs : files) (scr : screen) : res (list element) :=
  match scr with
  | ScreenStartup => Ok startup_group
  | ScreenNoGames => Ok no_games_group
  | ScreenGame g => build_game_display fs g
  end.

(** The pixel an element is placed at lies on the panel. *)
Definition on_panel (el : element) : Prop :=
  let '(x, y) := match el with
                 | TileGrid _ x y => (x, y)
                 | Label _ _ _ p => p
                 end in
  0 <= x < DISPLAY_WIDTH /\ 0 <= y < DISPLAY_HEIGHT.

(** The five labels of a game screen, by position in the group once the
    logos are set aside. *)
Definition labels (group : list element) : list element := filter is_Label group.

(** *** The pipeline with its console lines, its light and its
    collections *)

Inductive io_line : Type :=
| LnFetching (league : string)                 (* "Fetching NFL games..." *)
| LnFound (n : nat) (league : string)          (* "  Found 3 NFL games" *)
| LnErrorParsing (e : exn)                     (* "  Error parsing game: ..." *)
| LnErrorFetching (league : string) (e : exn)  (* "  Error fetching NFL: ..." *)
| LnParseError (e : exn)                       (* "Parse error: ..." *)
| LnTotal (n : nat).                           (* "Total games loaded: 4" *)

Inductive effect : Type :=
| IoPrint (l : io_line)
| IoPixel (r g b : Z)       (* pixel.fill((r, g, b)) *)
| IoGc.                     (* gc.collect() *)

Definition is_IoPixel (x : effect) : bool :=
  match x with IoPixel _ _ _ => true | _ => false end.

Definition is_IoGc (x : effect) : bool :=
  match x with IoGc => true | _ => false end.

(** [parse_game] with the line its handler prints. *)
Definition parse_game_io (event : pyval) (league_idx : nat)
  : option game * list effect :=
  match parse_game_body event league_idx with
  | Ok r => (r, [])
  | Raise e => (None, [IoPrint (LnParseError e)])
  end.

(** One turn of the event loop.  [parse_game] returns, so the [except]
    of the loop and its line are never reached. *)
Definition event_step_io (league_idx : nat) (st : list game * list effect)
           (event : pyval) : list game * list effect :=
  let '(all_games, tr) := st in
  let '(r, t) := parse_game_io event league_idx in
  (match r with
   | Some game => (all_games ++ [game])%list
   | None => all_games
   end, (tr ++ t)%list).

(** The request up to the loop, keeping the [len(events)] the progress
    line prints. *)
Definition request_events_io (feed : league_feed) : res (nat * list pyval) :=
  data <- match feed with Failed e => Raise e | Body d => Ok d end ;;
  events <- get data "events" (PList []) ;;
  n <- len events ;;
  l <- iter events ;;
  Ok (n, l).

(** One turn of the league loop.  A league that raises goes to
    [continue], past the [gc.collect()] at the end of the turn. *)
Definition league_step_io (nw : network) (st : list game * list effect)
           (item : nat * string) : res (list game * list effect) :=
  let '(all_games, tr) := st in
  let '(league_idx, url) := item in
  league <- list_index sport_leagues league_idx ;;
  let tr := (tr ++ [IoPrint (LnFetching (upper league)); IoPixel 0 0 255])%list in
  Ok (match request_events_io (nw url) with
      | Ok (n, events) =>
          let '(all_games', tr') :=
            fold_left (event_step_io league_idx) events
                      (all_games, (tr ++ [IoPrint (LnFound n (upper league))])%list) in
          (all_games', (tr' ++ [IoGc])%list)
      | Raise e =>
          (all_games, (tr ++ [IoPrint (LnErrorFetching (upper league) e)])%list)
      end).

Fixpoint leagues_loop_io (nw : network) (items : list (nat * string))
         (st : list game * list effect) : res (list game * list effect) :=
  match items with
  | [] => Ok st
  | item :: rest =>
      st' <- league_step_io nw st item ;;
      leagues_loop_io nw rest st'
  end.

Definition fetch_all_games_io (nw : network) : res (list game * list effect) :=
  st <- leagues_loop_io nw (enumerate SPORT_URLS) ([], []) ;;
  let '(all_games, tr) := st in
  Ok (all_games,
      (tr ++ [IoPixel 0 0 0; IoPrint (LnTotal (List.length all_games))])%list).

(** The leagues whose request and decoding succeed. *)
Definition league_ok (nw : network) (item : nat * string) : bool :=
  match request_events (nw (snd item)) with Ok _ => true | Raise _ => false end.

(** *** The states the program can be in *)

(** The globals after the start-up, and after any number of passes that
    completed. *)
Inductive reachable : state -> Prop :=
| reach_startup (net1 net2 : network) (t1 t2 : Z) (s : state) :
    startup net1 net2 t1 t2 = Ok s -> reachable s
| reach_pass (e : env) (s s' : state) (t : list action) :
    reachable s -> iteration e s = (Running s', t) -> reachable s'.

Definition is_Sleep (a : action) : bool :=
  match a with Sleep _ => true | _ => false end.

Definition is_Show (a : action) : bool :=
  match a with Show _ => true | _ => false end.

(** The effects of one league's turn and of the whole run, written out
    league by league. *)
Definition parse_lines (league_idx : nat) (events : list pyval) : list effect :=
  flat_map (fun event => snd (parse_game_io event league_idx)) events.

Definition league_effects (nw : network) (item : nat * string) : list effect :=
  let name := upper (nth (fst item) sport_leagues EmptyString) in
  ([IoPrint (LnFetching name); IoPixel 0 0 255]
   ++ match request_events_io (nw (snd item)) with
      | Ok (n, events) =>
          [IoPrint (LnFound n name)] ++ parse_lines (fst item) events ++ [IoGc]
      | Raise e => [IoPrint (LnErrorFetching name e)]
      end)%list.

(** The events the progress lines of a trace add up to. *)
Fixpoint found_total (tr : list effect) : nat :=
  match tr with
  | [] => 0
  | IoPrint (LnFound n _) :: rest => n + found_total rest
  | _ :: rest => found_total rest
  end.

(** The number of events one league's feed holds, none when the league
    raises. *)
Definition events_in (nw : network) (item : nat * string) : nat :=
  match request_events (nw (snd item)) with
  | Ok events => List.length events
  | Raise _ => 0%nat
  end.

(** The score label and the status label of a game screen: the fourth
    and the fifth of its labels. *)
Definition score_label (group : list element) : option element :=
  nth_error (labels group) 3.

Definition status_label (group : list element) : option element :=
  nth_error (labels group) 4.

(** The grid of a logo, when its file loads. *)
Definition logo_grid (fs : files) (path : string) (x y : Z) : list element :=
  match fs path with
  | None => [TileGrid path x y]
  | Some _ => []
  end.

(** What holds of the globals at all times: the index is inside the
    list, every installed game has a logo folder, and an empty list goes
    with the no-games screen. *)
Definition globals_ok (s : state) : Prop :=
  index_ok s
  /\ Forall (fun g => (league_idx g < List.length logo_folders)%nat) (games s)
  /\ (games s = [] -> root_group s = ScreenNoGames).

(* ================================================================== *)
(** ** Tick arithmetic *)
(* ================================================================== *)

Lemma TICKS_PERIOD_val : TICKS_PERIOD = 2 ^ 29.
Proof. reflexivity. Qed.

Lemma TICKS_HALFPERIOD_val : TICKS_HALFPERIOD = 2 ^ 28.
Proof. reflexivity. Qed.

Lemma land_TICKS_MAX (x : Z) : Z.land x TICKS_MAX = x mod TICKS_PERIOD.
Proof.
  unfold TICKS_MAX. rewrite TICKS_PERIOD_val.
  change (2 ^ 29 - 1) with (Z.ones 29).
  apply Z.land_ones. lia.
Qed.

Lemma ticks_diff_wrap_diff (a b : Z) : ticks_diff a b = wrap_diff a b.
Proof.
  unfold ticks_diff, wrap_diff.
  rewrite !land_TICKS_MAX.
  rewrite Z.add_mod_idemp_l by (rewrite TICKS_PERIOD_val; lia).
  reflexivity.
Qed.

Lemma wrap_diff_range (a b : Z) :
  - TICKS_HALFPERIOD <= wrap_diff a b < TICKS_HALFPERIOD.
Proof.
  unfold wrap_diff.
  pose proof (Z.mod_pos_bound (a - b + TICKS_HALFPERIOD) TICKS_PERIOD) as H.
  rewrite TICKS_PERIOD_val, TICKS_HALFPERIOD_val in *. lia.
Qed.

Lemma wrap_diff_congr (a b : Z) :
  (wrap_diff a b - (a - b)) mod TICKS_PERIOD = 0.
Proof.
  unfold wrap_diff.
  rewrite (Z.mod_eq (a - b + TICKS_HALFPERIOD) TICKS_PERIOD)
    by (rewrite TICKS_PERIOD_val; lia).
  match goal with |- ?x mod _ = 0 =>
    replace x with ((- ((a - b + TICKS_HALFPERIOD) / TICKS_PERIOD)) * TICKS_PERIOD) by ring
  end.
  apply Z.mod_mul. rewrite TICKS_PERIOD_val. lia.
Qed.

(** When the true (unwrapped) distance lies in the half-period window,
    the counter values recover it exactly. *)
Lemma wrap_diff_unwrapped (N D : Z) :
  - TICKS_HALFPERIOD <= N - D < TICKS_HALFPERIOD ->
  wrap_diff (N mod TICKS_PERIOD) (D mod TICKS_PERIOD) = N - D.
Proof.
  intros H. unfold wrap_diff.
  assert (P : TICKS_PERIOD <> 0) by (rewrite TICKS_PERIOD_val; lia).
  replace ((N mod TICKS_PERIOD - D mod TICKS_PERIOD + TICKS_HALFPERIOD) mod TICKS_PERIOD)
    with ((N - D + TICKS_HALFPERIOD) mod TICKS_PERIOD).
  - rewrite Z.mod_small; [lia|].
    rewrite TICKS_PERIOD_val, TICKS_HALFPERIOD_val in *. lia.
  - rewrite <- (Z.add_mod_idemp_l (N - D)) by assumption.
    rewrite <- (Z.add_mod_idemp_l (N mod _ - D mod _)) by assumption.
    rewrite <- Zminus_mod. reflexivity.
Qed.

(** C3. The scheduler's elapsed test, for the fetch timer and for the
    display timer, is true exactly when the wraparound-safe difference
    [now - deadline] reaches the interval.  That difference is the one
    representative of [now - deadline] modulo the counter period lying in
    the half-period window, and it equals the true elapsed time whenever
    that time is inside the window, wherever the two readings sit
    relative to a counter overflow. *)
Theorem elapsed_wraparound_safe :
  forall deadline now : Z,
    is_tick deadline -> is_tick now ->
    (fetch_due deadline now = true <->
       wrap_diff now deadline >= fetch_interval_ms)
    /\ (display_due deadline now = true <->
       wrap_diff now deadline >= display_interval_ms)
    /\ - TICKS_HALFPERIOD <= wrap_diff now deadline < TICKS_HALFPERIOD
    /\ (wrap_diff now deadline - (now - deadline)) mod TICKS_PERIOD = 0
    /\ (forall N D : Z,
          now = N mod TICKS_PERIOD -> deadline = D mod TICKS_PERIOD ->
          - TICKS_HALFPERIOD <= N - D < TICKS_HALFPERIOD ->
          (fetch_due deadline now = true <-> N - D >= fetch_interval_ms)
          /\ (display_due deadline now = true <-> N - D >= display_interval_ms)).
Proof.
  intros deadline now _ _.
  unfold fetch_due, display_due, elapsed.
  rewrite ticks_diff_wrap_diff.
  repeat split; try (rewrite Z.geb_le in *; lia).
  - apply wrap_diff_range.
  - apply wrap_diff_range.
  - apply wrap_diff_congr.
  - subst. rewrite wrap_diff_unwrapped in * by assumption.
    rewrite Z.geb_le in *; lia.
  - subst. rewrite wrap_diff_unwrapped by assumption.
    rewrite Z.geb_le; lia.
  - subst. rewrite wrap_diff_unwrapped in * by assumption.
    rewrite Z.geb_le in *; lia.
  - subst. rewrite wrap_diff_unwrapped by assumption.
    rewrite Z.geb_le; lia.
Qed.

Lemma elapsed_wraparound_safe_witness :
  fetch_due 536869912 299000 = true /\ display_due 536869912 299000 = true.
Proof.
  assert (T1 : is_tick 536869912) by (unfold is_tick; rewrite TICKS_PERIOD_val; lia).
  assert (T2 : is_tick 299000) by (unfold is_tick; rewrite TICKS_PERIOD_val; lia).
  destruct (elapsed_wraparound_safe 536869912 299000 T1 T2) as (_ & _ & _ & _ & H).
  destruct (H 537169912 536869912 eq_refl eq_refl) as [Hf Hd].
  - rewrite TICKS_HALFPERIOD_val. lia.
  - split; [apply Hf | apply Hd];
      unfold fetch_interval_ms, display_interval_ms, fetch_interval, display_interval;
      lia.
Defined.

(* ================================================================== *)
(** ** The fetch pipeline *)
(* ================================================================== *)

Lemma accepted_app (i : nat) (l1 l2 : list pyval) :
  accepted i (l1 ++ l2)%list = (accepted i l1 ++ accepted i l2)%list.
Proof. unfold accepted. apply flat_map_app. Qed.

Lemma fold_event_step (i : nat) (events : list pyval) :
  forall acc, fold_left (event_step i) events acc = (acc ++ accepted i events)%list.
Proof.
  induction events as [|ev rest IH]; intros acc; simpl.
  - now rewrite app_nil_r.
  - rewrite IH. unfold event_step, catch.
    destruct (parse_game ev i); simpl.
    + now rewrite <- app_assoc.
    + reflexivity.
Qed.

Lemma league_step_spec (nw : network) (acc : list game) (item : nat * string) :
  (fst item < List.length sport_leagues)%nat ->
  league_step nw acc item = Ok (acc ++ league_games nw item)%list.
Proof.
  destruct item as [i url]; simpl. intros Hi.
  unfold league_step, list_index.
  destruct (nth_error sport_leagues i) eqn:E.
  - simpl. f_equal. unfold league_games; simpl.
    destruct (request_events (nw url)); simpl.
    + apply fold_event_step.
    + now rewrite app_nil_r.
  - apply nth_error_None in E. simpl in E, Hi. lia.
Qed.

Lemma leagues_loop_spec (nw : network) (items : list (nat * string)) :
  Forall (fun item => (fst item < List.length sport_leagues)%nat) items ->
  forall acc,
    leagues_loop nw items acc
    = Ok (acc ++ List.concat (map (league_games nw) items))%list.
Proof.
  induction 1 as [|item rest Hi _ IH]; intros acc; simpl.
  - now rewrite app_nil_r.
  - rewrite league_step_spec by assumption. simpl.
    rewrite IH. now rewrite app_assoc.
Qed.

Lemma enumerate_urls_in_range :
  Forall (fun item => (fst item < List.length sport_leagues)%nat)
         (enumerate SPORT_URLS).
Proof. repeat constructor. Qed.

Lemma fetch_all_games_spec (nw : network) :
  fetch_all_games nw = Ok (pipeline_spec nw).
Proof.
  unfold fetch_all_games, pipeline_spec.
  now rewrite (leagues_loop_spec nw _ enumerate_urls_in_range).
Qed.

Lemma accepted_all (i : nat) (events : list pyval) :
  (forall ev, In ev events -> parse_game ev i <> None) ->
  List.length (accepted i events) = List.length events.
Proof.
  induction events as [|ev rest IH]; intros H; simpl; [reflexivity|].
  destruct (parse_game ev i) eqn:E.
  - simpl. f_equal. apply IH. intros ev' Hin. apply H. now right.
  - exfalso. apply (H ev); [now left | assumption].
Qed.

Lemma parse_game_of_text (s : string) (i : nat) : parse_game (PStr s) i = None.
Proof. reflexivity. Qed.

Lemma accepted_of_texts (i : nat) (events : list pyval) :
  Forall (fun ev => exists s, ev = PStr s) events -> accepted i events = [].
Proof.
  induction 1 as [|ev rest [s ->] _ IH]; [reflexivity|].
  simpl. now rewrite IH.
Qed.

Lemma chars_are_texts (s : string) :
  Forall (fun ev => exists c, ev = PStr c) (chars s).
Proof. induction s; simpl; constructor; eauto. Qed.

(** The accepted events are the normalizer's results that are games. *)
Lemma accepted_normalized (i : nat) (events : list pyval) :
  accepted i events
  = flat_map (fun o => match o with Some game => [game] | None => [] end)
             (normalized i events).
Proof.
  unfold accepted, normalized.
  induction events as [|ev rest IH]; [reflexivity|].
  cbn [flat_map map filter]. destruct (parse_game ev i); cbn [flat_map app].
  - now rewrite IH.
  - exact IH.
Qed.

Lemma normalized_games (i : nat) (events : list pyval) :
  map Some (flat_map (fun o => match o with Some game => [game] | None => [] end)
                     (normalized i events))
  = normalized i events.
Proof.
  unfold normalized.
  induction events as [|ev rest IH]; [reflexivity|].
  cbn [map filter]. destruct (parse_game ev i); cbn [flat_map app map].
  - now rewrite IH.
  - exact IH.
Qed.

(** What the code's steps make of a response is what the response
    holds: the walk over a string or an object that stands where the
    list of events should be yields nothing. *)
Lemma league_games_contribution (nw : network) (item : nat * string) :
  league_games nw item = league_contribution nw item.
Proof.
  unfold league_games, league_contribution.
  rewrite <- accepted_normalized.
  unfold request_events, scoreboard_events.
  destruct (nw (snd item)) as [x|data]; [reflexivity|].
  destruct data; try reflexivity.
  cbn [bind get].
  destruct (lookup "events" items) as [v|]; [|reflexivity].
  destruct v; cbn [bind len iter]; try reflexivity.
  - apply accepted_of_texts, chars_are_texts.
  - apply accepted_of_texts, Forall_forall. intros ev Hev.
    apply in_map_iff in Hev as (kv & <- & _). eauto.
Qed.

Lemma normalized_app (i : nat) (l1 l2 : list pyval) :
  normalized i (l1 ++ l2)%list = (normalized i l1 ++ normalized i l2)%list.
Proof. unfold normalized. now rewrite map_app, filter_app. Qed.

Lemma normalized_all (i : nat) (events : list pyval) :
  (forall ev, In ev events -> parse_game ev i <> None) ->
  normalized i events = map (fun ev => parse_game ev i) events.
Proof.
  unfold normalized.
  induction events as [|ev rest IH]; intros H; [reflexivity|].
  cbn [map filter]. destruct (parse_game ev i) eqn:E.
  - f_equal. apply IH. intros ev' Hin. apply H. now right.
  - exfalso. apply (H ev); [now left | assumption].
Qed.

(** C2. For every state of the network the pipeline returns, and never
    raises: its result is the concatenation, over the four leagues in
    their order, of what each league contributes, and a league's
    contribution is read off that league's response alone.  A league
    whose request raises, or whose response is not an object holding a
    list of events, contributes nothing.  A league whose response holds
    the list [events] contributes the games the normalizer makes of
    those events, in their order, and nothing else.  One rejected event
    among accepted ones costs exactly that event: the league
    contributes one game for each of the others, each the normalizer's
    result for its event. *)
Theorem fetch_all_games_isolation :
  forall nw : network,
    fetch_all_games nw
    = Ok (List.concat (map (league_contribution nw) (enumerate SPORT_URLS)))
    /\ enumerate SPORT_URLS
       = [ (0%nat, "https://site.api.espn.com/apis/site/v2/sports/football/nfl/scoreboard");
           (1%nat, "https://site.api.espn.com/apis/site/v2/sports/baseball/mlb/scoreboard");
           (2%nat, "https://site.api.espn.com/apis/site/v2/sports/hockey/nhl/scoreboard");
           (3%nat, "https://site.api.espn.com/apis/site/v2/sports/basketball/nba/scoreboard") ]
    /\ (forall item x, nw (snd item) = Failed x -> league_contribution nw item = [])
    /\ (forall item data,
          nw (snd item) = Body data ->
          (forall items events,
             data = PDict items -> lookup "events" items <> Some (PList events)) ->
          league_contribution nw item = [])
    /\ (forall item items events,
          nw (snd item) = Body (PDict items) ->
          lookup "events" items = Some (PList events) ->
          map Some (league_contribution nw item)
          = filter (fun o => match o with Some _ => true | None => false end)
                   (map (fun event => parse_game event (fst item)) events))
    /\ (forall nw' item,
          nw' (snd item) = nw (snd item) ->
          league_contribution nw' item = league_contribution nw item)
    /\ (forall item items before bad after,
          nw (snd item) = Body (PDict items) ->
          lookup "events" items = Some (PList (before ++ bad :: after)%list) ->
          parse_game bad (fst item) = None ->
          (forall ev, In ev (before ++ after)%list ->
                      parse_game ev (fst item) <> None) ->
          List.length (league_contribution nw item)
          = List.length (before ++ after)%list
          /\ map Some (league_contribution nw item)
             = map (fun ev => parse_game ev (fst item)) (before ++ after)%list).
Proof.
  intros nw. split.
  { rewrite fetch_all_games_spec. unfold pipeline_spec. do 2 f_equal.
    apply map_ext, league_games_contribution. }
  split; [reflexivity|].
  split; [|split; [|split; [|split]]].
  - intros item x H. unfold league_contribution. now rewrite H.
  - intros item data H Hno. unfold league_contribution. rewrite H.
    unfold scoreboard_events. destruct data; try reflexivity.
    destruct (lookup "events" items) as [v|] eqn:El; [|reflexivity].
    destruct v; try reflexivity.
    exfalso. exact (Hno items items0 eq_refl El).
  - intros item items events H El. unfold league_contribution.
    rewrite H. unfold scoreboard_events. rewrite El.
    apply normalized_games.
  - intros nw' item H. unfold league_contribution. now rewrite H.
  - intros item items before bad after H El Hbad Hgood.
    assert (E : map Some (league_contribution nw item)
                = map (fun ev => parse_game ev (fst item)) (before ++ after)%list).
    { unfold league_contribution. rewrite H. unfold scoreboard_events. rewrite El.
      rewrite normalized_games.
      change (before ++ bad :: after)%list with (before ++ [bad] ++ after)%list.
      rewrite !normalized_app.
      assert (Hb : normalized (fst item) [bad] = [])
        by (unfold normalized; cbn [map filter]; now rewrite Hbad).
      rewrite Hb. cbn [app].
      rewrite <- normalized_app. apply normalized_all, Hgood. }
    split; [|exact E].
    rewrite <- (length_map Some), E. apply length_map.
Qed.

(** The pipeline on a network where one league is down, one answers
    with something that is not a scoreboard, and one event is short of
    a competitor. *)
Example fetch_all_games_mixed :
  fetch_all_games mixed_network = Ok [game_A; game_B; game_C].
Proof. vm_compute. reflexivity. Qed.

(* ================================================================== *)
(** ** The normalizer *)
(* ================================================================== *)

Lemma bind_Ok {A B} (c : res A) (k : A -> res B) (b : B) :
  bind c k = Ok b -> exists a, c = Ok a /\ k a = Ok b.
Proof. destruct c; simpl; intros H; [eauto | discriminate]. Qed.

Lemma getitem_Ok (v : pyval) (k : string) (x : pyval) :
  getitem v k = Ok x -> exists items, v = PDict items /\ lookup k items = Some x.
Proof.
  destruct v; simpl; try discriminate.
  destruct (lookup k items) eqn:E; intros H; inversion H; subst; eauto.
Qed.

Lemma get_Ok (v : pyval) (k : string) (d x : pyval) :
  get v k d = Ok x ->
  exists items, v = PDict items /\ x = or_default d (lookup k items).
Proof.
  destruct v; simpl; try discriminate.
  intros H; inversion H; subst; eauto.
Qed.

Lemma getindex_Ok_dict (v : pyval) (i : nat) (items : list (string * pyval)) :
  getindex v i = Ok (PDict items) ->
  exists l, v = PList l /\ nth_error l i = Some (PDict items).
Proof.
  destruct v; simpl; try discriminate.
  - destruct (String.get i s); discriminate.
  - destruct (nth_error items0 i) eqn:E; intros H; inversion H; subst; eauto.
Qed.

Lemma catch_Some {A} (c : res (option A)) (a : A) :
  catch c (fun _ => None) = Some a -> c = Ok (Some a).
Proof. destruct c; simpl; intros H; [now subst | discriminate]. Qed.

(** What an accepted event looks like, and the record made from it. *)
Lemma parse_game_inv (event : pyval) (idx : nat) (g : game) :
  parse_game event idx = Some g ->
  exists ev more ci i0 i1 t0 t1 h a st ty lg,
    event = PDict ev
    /\ lookup "competitions" ev = Some (PList (PDict ci :: more))
    /\ lookup "competitors" ci = Some (PList [PDict i0; PDict i1])
    /\ lookup "team" i0 = Some (PDict t0) /\ lookup "abbreviation" t0 = Some h
    /\ lookup "team" i1 = Some (PDict t1) /\ lookup "abbreviation" t1 = Some a
    /\ lookup "status" ev = Some (PDict st)
    /\ lookup "type" st = Some (PDict ty)
    /\ nth_error sport_leagues idx = Some lg
    /\ g = let status_name := or_default (PStr "STATUS_SCHEDULED") (lookup "name" ty) in
           {| league := upper lg;
              league_idx := idx;
              home_team := h;
              away_team := a;
              home_score := str (or_default (PStr "0") (lookup "score" i0));
              away_score := str (or_default (PStr "0") (lookup "score" i1));
              status := display_status_of status_name
                          (or_default (PStr EmptyString) (lookup "shortDetail" ty))
                          (or_default (PStr EmptyString) (lookup "date" ev));
              is_final := eq_str status_name "STATUS_FINAL";
              is_live := eq_str status_name "STATUS_IN_PROGRESS";
              is_scheduled := eq_str status_name "STATUS_SCHEDULED" |}.
Proof.
  unfold parse_game. intros H. apply catch_Some in H.
  unfold parse_game_body in H.
  apply bind_Ok in H as (competitions & Hcs & H).
  apply getitem_Ok in Hcs as (ev & -> & Hcs).
  apply bind_Ok in H as (competition & Hc & H).
  apply bind_Ok in H as (competitors & Hcomp & H).
  apply getitem_Ok in Hcomp as (ci & -> & Hcomp).
  apply getindex_Ok_dict in Hc as (cl & -> & Hc).
  destruct cl as [|c' more]; simpl in Hc; [discriminate|]. inversion Hc; subst c'.
  apply bind_Ok in H as (n & Hn & H).
  destruct (negb (n =? 2)%nat) eqn:En; [discriminate|].
  apply negb_false_iff, Nat.eqb_eq in En. subst n.
  apply bind_Ok in H as (c0 & Hc0 & H).
  apply bind_Ok in H as (t0 & Ht0 & H).
  apply getitem_Ok in Ht0 as (i0 & -> & Ht0).
  apply bind_Ok in H as (h & Hh & H).
  apply getitem_Ok in Hh as (t0' & -> & Hh).
  apply bind_Ok in H as (c1 & Hc1 & H).
  apply bind_Ok in H as (t1 & Ht1 & H).
  apply getitem_Ok in Ht1 as (i1 & -> & Ht1).
  apply bind_Ok in H as (a & Ha & H).
  apply getitem_Ok in Ha as (t1' & -> & Ha).
  apply getindex_Ok_dict in Hc0 as (l & -> & Hc0).
  simpl in Hn. inversion Hn as [Hlen].
  destruct l as [|x0 [|x1 [|x2 l]]]; simpl in Hlen; try discriminate.
  simpl in Hc0. inversion Hc0; subst x0.
  simpl in Hc1. inversion Hc1; subst x1.
  apply bind_Ok in H as (hs & Hhs & H). simpl in Hhs. inversion Hhs; subst hs.
  apply bind_Ok in H as (aws & Has & H). simpl in Has. inversion Has; subst aws.
  apply bind_Ok in H as (st & Hst & H).
  apply getitem_Ok in Hst as (ev' & Hev & Hst). inversion Hev; subst ev'.
  apply bind_Ok in H as (sty & Hty & H).
  apply getitem_Ok in Hty as (sti & -> & Hty).
  apply bind_Ok in H as (sn & Hsn & H).
  apply get_Ok in Hsn as (ty & -> & ->).
  apply bind_Ok in H as (sd & Hsd & H). simpl in Hsd. inversion Hsd; subst sd.
  apply bind_Ok in H as (gd & Hgd & H). simpl in Hgd. inversion Hgd; subst gd.
  apply bind_Ok in H as (lg & Hlg & H).
  unfold list_index in Hlg.
  destruct (nth_error sport_leagues idx) as [lg'|] eqn:Elg; [|discriminate].
  inversion Hlg; subst lg'.
  inversion H; subst g.
  exists ev, more, ci, i0, i1, t0', t1', h, a, sti, ty, lg.
  repeat split; assumption.
Qed.

Lemma eq_str_true (v : pyval) (lit : string) :
  eq_str v lit = true <-> v = PStr lit.
Proof.
  destruct v; simpl; split; try discriminate.
  - intros H. apply String.eqb_eq in H. now subst.
  - intros H. inversion H. apply String.eqb_refl.
Qed.

Lemma eq_str_unknown (c : pyval) (lit : string) :
  ~ known_code c -> In lit known_codes -> eq_str c lit = false.
Proof.
  intros Hc Hin. destruct (eq_str c lit) eqn:E; [|reflexivity].
  apply eq_str_true in E. exfalso. apply Hc. exists lit. tauto.
Qed.

Lemma display_status_of_cases (name detail date : pyval) :
  (name = PStr "STATUS_FINAL" -> display_status_of name detail date = PStr "FINAL")
  /\ (name = PStr "STATUS_IN_PROGRESS" -> display_status_of name detail date = detail)
  /\ (name = PStr "STATUS_SCHEDULED" ->
      display_status_of name detail date
      = PStr (convert_date_format date timezone_offset))
  /\ (name = PStr "STATUS_POSTPONED" ->
      display_status_of name detail date = PStr "POSTPONED")
  /\ (name = PStr "STATUS_CANCELED" ->
      display_status_of name detail date = PStr "CANCELED")
  /\ (~ known_code name ->
      display_status_of name detail date
      = if truthy detail then detail else PStr "SCHEDULED").
Proof.
  repeat split; try (intros ->; reflexivity).
  intros Hc. unfold display_status_of.
  rewrite !(eq_str_unknown name) by (assumption || (simpl; tauto)).
  reflexivity.
Qed.

Lemma option_eta {A} (o : option A) :
  match o with Some x => Some x | None => None end = o.
Proof. now destruct o. Qed.

(** C7. For an accepted event the stored status is: "FINAL" for the
    code STATUS_FINAL, whatever the detail; the feed's short detail,
    unchanged, for STATUS_IN_PROGRESS; the converted date for
    STATUS_SCHEDULED; "POSTPONED" and "CANCELED" for those two codes;
    and for any other code the short detail when it is non-empty,
    "SCHEDULED" otherwise.  (An absent detail counts as the empty
    string, an absent date as the empty string.) *)
Theorem status_derivation :
  forall (event : pyval) (idx : nat) (g : game),
    parse_game event idx = Some g ->
    let detail := or_default (PStr EmptyString) (short_detail event) in
    let date := or_default (PStr EmptyString) (event_date event) in
    (status_code event = Some (PStr "STATUS_FINAL") -> status g = PStr "FINAL")
    /\ (status_code event = Some (PStr "STATUS_IN_PROGRESS") -> status g = detail)
    /\ (status_code event = Some (PStr "STATUS_SCHEDULED") ->
        status g = PStr (convert_date_format date timezone_offset))
    /\ (status_code event = Some (PStr "STATUS_POSTPONED") ->
        status g = PStr "POSTPONED")
    /\ (status_code event = Some (PStr "STATUS_CANCELED") ->
        status g = PStr "CANCELED")
    /\ (forall c, status_code event = Some c -> ~ known_code c ->
        (truthy detail = true -> status g = detail)
        /\ (truthy detail = false -> status g = PStr "SCHEDULED"))
    /\ (forall c d, status_code event = Some c -> ~ known_code c ->
        short_detail event = Some (PStr d) -> d <> EmptyString ->
        status g = PStr d).
Proof.
  intros event idx g H.
  apply parse_game_inv in H
    as (ev & more & ci & i0 & i1 & t0 & t1 & h & a & st & ty & lg
        & -> & Hcs & Hcomp & Ht0 & Hh & Ht1 & Ha & Hst & Hty & Hlg & ->).
  unfold status_code, short_detail, event_date; simpl.
  rewrite Hst, Hty, !option_eta.
  set (detail := or_default (PStr EmptyString) (lookup "shortDetail" ty)).
  set (date := or_default (PStr EmptyString) (lookup "date" ev)).
  destruct (display_status_of_cases
              (or_default (PStr "STATUS_SCHEDULED") (lookup "name" ty)) detail date)
    as (Hf & Hp & Hs & Hpo & Hca & Hother).
  repeat split;
    try (intros E; rewrite E in *; simpl in *; auto; fail).
  - intros T. rewrite H in *. simpl in *. rewrite Hother, T; auto.
  - intros T. rewrite H in *. simpl in *. rewrite Hother, T; auto.
  - intros c d E Hc Hd Hne. rewrite E in *. simpl in *.
    rewrite Hother by assumption.
    subst detail. rewrite Hd. simpl.
    destruct (String.eqb_spec d EmptyString); [contradiction | reflexivity].
Qed.

Lemma status_derivation_witness :
  status (sample_game "STATUS_IN_PROGRESS" "Q3 5:42" "21" "17" (PStr "Q3 5:42"))
  = PStr "Q3 5:42"
  /\ status (sample_game "STATUS_FINAL" "Final/OT" "21" "17" (PStr "FINAL"))
     = PStr "FINAL".
Proof.
  split.
  - exact (proj1 (proj2
      (status_derivation
         (sample_event "STATUS_IN_PROGRESS" "Q3 5:42"
            [("score", PStr "21")] [("score", PStr "17")])
         0%nat
         (sample_game "STATUS_IN_PROGRESS" "Q3 5:42" "21" "17" (PStr "Q3 5:42"))
         eq_refl)) eq_refl).
  - exact (proj1
      (status_derivation
         (sample_event "STATUS_FINAL" "Final/OT"
            [("score", PStr "21")] [("score", PStr "17")])
         0%nat
         (sample_game "STATUS_FINAL" "Final/OT" "21" "17" (PStr "FINAL"))
         eq_refl) eq_refl).
Defined.



(* ================================================================== *)
(** ** One pass of the main loop *)
(* ================================================================== *)

Ltac unfold_monad :=
  unfold show_no_games, show, sleep, call_fetch_all_games,
         mbind, emit, lift, gets, modify, ret.

(** The refresh branch, evaluated. *)
Lemma refresh_eval (e : env) (s : state) :
  refresh e s
  = let g := pipeline_spec (net e) in
    let s1 := mk_state g (ticks_add (fetch_clock s) fetch_interval_ms)
                       (display_clock s) 0 (root_group s) in
    let t1 := [Print LineRefreshing; GcCollect; Fetch] in
    match g with
    | [] =>
        match panel_fault e with
        | Some x => (Raise x, s1, t1)
        | None => (Ok true, set_root_group ScreenNoGames s1,
                   (t1 ++ [Show ScreenNoGames; Sleep 5000])%list)
        end
    | _ :: _ => (Ok false, s1, t1)
    end.
Proof.
  unfold refresh. unfold_monad.
  rewrite fetch_all_games_spec.
  destruct (pipeline_spec (net e)); [destruct (panel_fault e)|]; reflexivity.
Qed.

(** The rotation block, evaluated. *)
Lemma show_next_game_eval (e : env) (s : state) :
  show_next_game e s
  = match games s with
    | [] => (Ok tt, s, [])
    | _ :: _ =>
        match nth_error (games s) (game_index s) with
        | None => (Raise IndexError, s, [])
        | Some g =>
            match panel_fault e with
            | Some x => (Raise x, s, [Print (LineShowing g); GcCollect])
            | None =>
                (Ok tt,
                 mk_state (games s) (fetch_clock s) (display_clock s)
                          ((game_index s + 1) mod List.length (games s))%nat
                          (ScreenGame g),
                 [Print (LineShowing g); GcCollect; Show (ScreenGame g)])
            end
        end
    end.
Proof.
  unfold show_next_game, list_index. unfold_monad.
  destruct s as [g fc dc i rg]; cbn -[Nat.modulo nth_error].
  destruct g as [|g0 gs]; [reflexivity|].
  cbn -[Nat.modulo nth_error].
  destruct (nth_error (g0 :: gs) i); [|reflexivity].
  destruct (panel_fault e); reflexivity.
Qed.

(** The display branch and the idle sleep, evaluated. *)
Lemma display_and_idle_eval (e : env) (now : Z) (s : state) :
  display_and_idle e now s
  = if display_due (display_clock s) now then
      let '(r, s1, t) := show_next_game e s in
      match r with
      | Ok _ => (Ok tt,
                 set_display_clock (ticks_add (display_clock s1) display_interval_ms) s1,
                 (t ++ [Sleep 100])%list)
      | Raise x => (Raise x, s1, t)
      end
    else (Ok tt, s, [Sleep 100]).
Proof.
  unfold display_and_idle. unfold_monad.
  destruct (display_due (display_clock s) now); [|reflexivity].
  destruct (show_next_game e s) as [[r s1] t].
  destruct r; [|reflexivity].
  simpl. now rewrite !app_nil_r.
Qed.

(** One pass, evaluated. *)
Lemma loop_body_eval (e : env) (s : state) :
  loop_body e s
  = if fetch_due (fetch_clock s) (ticks_ms e) then
      let '(r, s1, t1) := refresh e s in
      match r with
      | Ok true => (Ok tt, s1, t1)
      | Ok false =>
          let '(r2, s2, t2) := display_and_idle e (ticks_ms e) s1 in
          (r2, s2, (t1 ++ t2)%list)
      | Raise x => (Raise x, s1, t1)
      end
    else display_and_idle e (ticks_ms e) s.
Proof.
  unfold loop_body. unfold mbind at 1 2. unfold gets at 1.
  destruct (fetch_due (fetch_clock s) (ticks_ms e)).
  - destruct (refresh e s) as [[r s1] t1].
    destruct r as [[|]|x]; simpl; try reflexivity.
    + now rewrite app_nil_r.
    + destruct (display_and_idle e (ticks_ms e) s1) as [[r2 s2] t2]. reflexivity.
  - unfold ret.
    destruct (display_and_idle e (ticks_ms e) s) as [[r2 s2] t2]. reflexivity.
Qed.

Ltac case_pass e s :=
  try unfold iteration;
  rewrite loop_body_eval, ?refresh_eval; cbv zeta;
  destruct (fetch_due (fetch_clock s) (ticks_ms e)) eqn:Hfd;
  [ destruct (pipeline_spec (net e)) as [|g0 gs] eqn:Hp;
    [ destruct (panel_fault e) eqn:Hpf | ] | ];
  rewrite ?display_and_idle_eval;
  cbn [games fetch_clock display_clock game_index root_group];
  try (destruct (display_due (display_clock s) (ticks_ms e)) eqn:Hdd;
       [ rewrite show_next_game_eval;
         cbn [games fetch_clock display_clock game_index root_group nth_error] | ]);
  repeat match goal with
    | |- context [match panel_fault e with _ => _ end] =>
        destruct (panel_fault e) eqn:Hpf
    | |- context [match games s with _ => _ end] =>
        destruct (games s) as [|g1 gs1] eqn:Hgs
    | |- context [match nth_error ?l ?i with _ => _ end] =>
        destruct (nth_error l i) eqn:Hnth
    end.

(** C4. In a pass that completes, a timer that fires has its deadline
    moved to [ticks_add] of the old deadline and the interval, a value
    in which the current time does not occur, and a timer that does not
    fire keeps its deadline; so neither timer touches the other's. *)
Theorem deadlines_advance_by_one_interval :
  forall (e : env) (s s' : state) (t : list action),
    iteration e s = (Running s', t) ->
    fetch_clock s'
    = (if fetch_fires e s
       then ticks_add (fetch_clock s) fetch_interval_ms
       else fetch_clock s)
    /\ display_clock s'
       = (if display_fires e s
          then ticks_add (display_clock s) display_interval_ms
          else display_clock s).
Proof.
  intros e s s' t. unfold display_fires, fetch_fires.
  case_pass e s; intros H; inversion H; subst; clear H;
    cbn [games fetch_clock display_clock game_index root_group
         set_display_clock set_root_group negb andb];
    auto.
Qed.

Lemma deadlines_advance_by_one_interval_witness :
  fetch_clock (mk_state [game_A; game_B; game_C] 300000 5000 1 (ScreenGame game_A))
  = ticks_add 0 fetch_interval_ms
  /\ display_clock (mk_state [game_A; game_B; game_C] 300000 5000 1 (ScreenGame game_A))
     = ticks_add 0 display_interval_ms.
Proof.
  exact (deadlines_advance_by_one_interval
           (mk_env 300000 mixed_network None) mid_rotation
           (mk_state [game_A; game_B; game_C] 300000 5000 1 (ScreenGame game_A))
           [Print LineRefreshing; GcCollect; Fetch;
            Print (LineShowing game_A); GcCollect; Show (ScreenGame game_A);
            Sleep 100]
           eq_refl).
Defined.

(* ================================================================== *)
(** ** Refresh and the installed list *)
(* ================================================================== *)

(** C1, as stated, fails.  With two games installed and the second one
    next, a pass in which the refresh is due and every league's request
    raises ends with the empty list installed, the index back at 0 and
    the no-games screen up: the old list is gone and the index moved. *)
Lemma failed_refresh_replaces_list :
  let e := pass_offline 300000 in
  let s := mid_rotation in
  let s' := mk_state [] 300000 0 0 ScreenNoGames in
  fetch_due (fetch_clock s) (ticks_ms e) = true
  /\ fetch_all_games (net e) = Ok []
  /\ games s = [game_A; game_B]
  /\ game_index s = 1%nat
  /\ iteration e s
     = (Running s',
        [Print LineRefreshing; GcCollect; Fetch; Show ScreenNoGames; Sleep 5000])
  /\ games s' <> games s
  /\ game_index s' <> game_index s.
Proof. repeat split; discriminate. Qed.

(** C1, amended.  In a pass that completes, a due refresh installs
    whatever list the pipeline returned, empty or not, and puts the
    index at 0 before any rotation of the same pass: after an empty
    result the list is empty, the index is 0 and the no-games screen is
    up; after a non-empty result the index is 0, or one step on when the
    display timer fired too.  Without a due refresh the list is the one
    that was installed. *)
Theorem refresh_installs_result :
  forall (e : env) (s s' : state) (t : list action),
    iteration e s = (Running s', t) ->
    (fetch_fires e s = true ->
       fetch_all_games (net e) = Ok (games s')
       /\ (games s' = [] ->
           game_index s' = 0%nat /\ root_group s' = ScreenNoGames)
       /\ (games s' <> [] ->
           game_index s'
           = if display_fires e s
             then (1 mod List.length (games s'))%nat else 0%nat))
    /\ (fetch_fires e s = false -> games s' = games s).
Proof.
  intros e s s' t. unfold display_fires, fetch_fires.
  rewrite fetch_all_games_spec.
  case_pass e s; intros H; try discriminate H;
    injection H as <- <-;
    cbn [games fetch_clock display_clock game_index root_group
         set_display_clock set_root_group negb andb];
    (split; intros D; try discriminate D);
    repeat split; auto; try congruence; try discriminate.
Qed.

Lemma refresh_installs_result_witness :
  fetch_all_games offline = Ok []
  /\ game_index (mk_state [] 300000 0 0 ScreenNoGames) = 0%nat
  /\ root_group (mk_state [] 300000 0 0 ScreenNoGames) = ScreenNoGames.
Proof.
  pose proof (proj1 (refresh_installs_result
           (pass_offline 300000) mid_rotation
           (mk_state [] 300000 0 0 ScreenNoGames)
           [Print LineRefreshing; GcCollect; Fetch; Show ScreenNoGames; Sleep 5000]
           eq_refl) eq_refl) as [H1 [H2 _]].
  exact (conj H1 (H2 eq_refl)).
Defined.

(* ================================================================== *)
(** ** Empty results and faults *)
(* ================================================================== *)

Lemma ticks_add_mod (D i : Z) :
  ticks_add (D mod TICKS_PERIOD) i = (D + i) mod TICKS_PERIOD.
Proof.
  unfold ticks_add. apply Z.add_mod_idemp_l.
  rewrite TICKS_PERIOD_val. lia.
Qed.

Lemma loop_body_no_reset (e : env) (s s1 : state) (r : res unit) (t : list action) :
  loop_body e s = (r, s1, t) -> count is_Reset t = 0%nat.
Proof.
  case_pass e s; intros H; injection H as <- <- <-; reflexivity.
Qed.

Lemma count_app (p : action -> bool) (t1 t2 : list action) :
  count p (t1 ++ t2)%list = (count p t1 + count p t2)%nat.
Proof. unfold count. now rewrite filter_app, length_app. Qed.

Lemma recover_ends_in_reset (x : exn) :
  exists pre, recover x = (pre ++ [Reset])%list /\ count is_Reset pre = 0%nat.
Proof.
  unfold recover. destruct (is_MemoryError x).
  - now exists [Print LineMemoryError; GcCollect; Sleep 5000].
  - now exists [Print (LineMainLoopError x); Sleep 10000; GcCollect; Sleep 5000].
Qed.

(** A pass with nothing installed and the refresh not yet due only
    idles: it touches neither the list, nor the fetch deadline, nor the
    panel. *)
Lemma idle_pass (e : env) (s : state) :
  games s = [] -> fetch_fires e s = false ->
  exists dc,
    iteration e s
    = (Running (mk_state [] (fetch_clock s) dc (game_index s) (root_group s)),
       [Sleep 100]).
Proof.
  unfold fetch_fires. intros Hg Hfd. unfold iteration.
  rewrite loop_body_eval, Hfd, display_and_idle_eval.
  destruct (display_due (display_clock s) (ticks_ms e)).
  - rewrite show_next_game_eval, Hg.
    eexists. unfold set_display_clock. rewrite Hg. reflexivity.
  - exists (display_clock s). destruct s as [g fc dc i rg].
    cbn [games] in Hg. subst g. reflexivity.
Qed.

(** A pass in which the refresh is due begins with the refresh. *)
Lemma refresh_pass_prefix (e : env) (s : state) :
  fetch_fires e s = true ->
  exists o after,
    iteration e s = (o, Print LineRefreshing :: GcCollect :: Fetch :: after).
Proof.
  unfold fetch_fires. intros Hfd. unfold iteration.
  rewrite loop_body_eval, Hfd, refresh_eval. cbv zeta.
  destruct (pipeline_spec (net e)); [destruct (panel_fault e)|].
  - eexists _, _. reflexivity.
  - eexists _, _. reflexivity.
  - destruct (display_and_idle e (ticks_ms e) _) as [[r2 s2] t2].
    destruct r2; eexists _, _; reflexivity.
Qed.

Lemma run_prefix (e : env) (rest : list env) (s : state)
      (o : outcome) (t : list action) :
  iteration e s = (o, t) -> exists more, run (e :: rest) s = (t ++ more)%list.
Proof.
  intros H. cbn [run]. rewrite H. destruct o.
  - eexists. reflexivity.
  - exists []. now rewrite app_nil_r.
Qed.

Lemma run_is_passes (envs : list env) :
  forall s, run envs s = snd (passes envs s).
Proof.
  induction envs as [|e rest IH]; intros s; [reflexivity|].
  cbn [run passes]. destruct (iteration e s) as [[s1|] t]; [|reflexivity].
  rewrite IH. now destruct (passes rest s1).
Qed.

(** With nothing installed, the passes that come before the refresh is
    due only idle, and the first pass in which it is due refreshes. *)
Lemma retry_reached (envs : list env) (e' : env) :
  forall s,
    games s = [] -> fetch_fires e' s = true ->
    exists k after,
      (k <= List.length envs)%nat
      /\ run (envs ++ [e'])%list s
         = (repeat (Sleep 100) k
            ++ Print LineRefreshing :: GcCollect :: Fetch :: after)%list.
Proof.
  induction envs as [|e1 rest IH]; intros s Hg Hdue.
  - destruct (refresh_pass_prefix e' s Hdue) as (o & after & Hit).
    destruct (run_prefix e' [] s o _ Hit) as [more Hrun].
    exists 0%nat, (after ++ more)%list. split; [apply Nat.le_0_l|].
    cbn [app repeat]. rewrite Hrun. reflexivity.
  - destruct (fetch_fires e1 s) eqn:H1.
    + destruct (refresh_pass_prefix e1 s H1) as (o & after & Hit).
      destruct (run_prefix e1 (rest ++ [e'])%list s o _ Hit) as [more Hrun].
      exists 0%nat, (after ++ more)%list. split; [apply Nat.le_0_l|].
      cbn [app repeat]. rewrite Hrun. reflexivity.
    + destruct (idle_pass e1 s Hg H1) as [dc Hit].
      destruct (IH (mk_state [] (fetch_clock s) dc (game_index s) (root_group s))
                   eq_refl Hdue) as (k & after & Hk & Hrun).
      exists (S k), after. split; [cbn [List.length]; lia|].
      cbn [app run]. rewrite Hit, Hrun. reflexivity.
Qed.

Lemma idle_passes (envs : list env) :
  forall s,
    games s = [] ->
    Forall (fun e1 => fetch_fires e1 s = false) envs ->
    exists dc,
      passes envs s
      = (Running (mk_state [] (fetch_clock s) dc (game_index s) (root_group s)),
         repeat (Sleep 100) (List.length envs)).
Proof.
  induction envs as [|e1 rest IH]; intros s Hg Hall.
  - exists (display_clock s). destruct s as [g fc dc i rg].
    cbn [games] in Hg. subst g. reflexivity.
  - inversion Hall as [|? ? H1 Hrest]; subst.
    destruct (idle_pass e1 s Hg H1) as [dc Hit].
    destruct (IH (mk_state [] (fetch_clock s) dc (game_index s) (root_group s))
                 eq_refl Hrest) as [dc' Hp].
    exists dc'. cbn [passes]. rewrite Hit, Hp. reflexivity.
Qed.

(** C8. A pass in which the refresh is due, the pipeline returns no
    game and the panel works: the pass completes (the loop keeps
    running, nothing is reset), the no-games screen is put up, and the
    only wait is the five-second sleep.  The fetch deadline has moved
    one interval on and stays there: the passes that follow while it is
    not reached only idle, leaving the empty list, the deadline and the
    no-games screen as they are; and whatever passes follow, once one of
    them reads a clock that has reached the deadline, the run has
    attempted another refresh, with nothing but idle sleeps, and so no
    reset, between the empty result and that attempt.  The deadline is
    reached by every reading a fetch interval or more after the
    reading of the pass with the empty result. *)
Theorem empty_result_recovery :
  forall (e : env) (s : state),
    fetch_fires e s = true ->
    fetch_all_games (net e) = Ok [] ->
    panel_fault e = None ->
    let s' := mk_state [] (ticks_add (fetch_clock s) fetch_interval_ms)
                       (display_clock s) 0 ScreenNoGames in
    let t := [Print LineRefreshing; GcCollect; Fetch;
              Show ScreenNoGames; Sleep 5000] in
    iteration e s = (Running s', t)
    /\ count is_Reset t = 0%nat
    /\ (forall envs,
          Forall (fun e1 => fetch_fires e1 s' = false) envs ->
          exists dc,
            passes (e :: envs) s
            = (Running (mk_state [] (ticks_add (fetch_clock s) fetch_interval_ms)
                                 dc 0 ScreenNoGames),
               (t ++ repeat (Sleep 100) (List.length envs))%list))
    /\ (forall envs e',
          fetch_fires e' s' = true ->
          exists k after,
            (k <= List.length envs)%nat
            /\ run (e :: envs ++ [e'])%list s
               = (t ++ repeat (Sleep 100) k
                  ++ Print LineRefreshing :: GcCollect :: Fetch :: after)%list)
    /\ (forall (D N N' : Z) (e' : env),
          fetch_clock s = D mod TICKS_PERIOD ->
          ticks_ms e = N mod TICKS_PERIOD ->
          ticks_ms e' = N' mod TICKS_PERIOD ->
          - TICKS_HALFPERIOD <= N - D < TICKS_HALFPERIOD ->
          fetch_interval_ms <= N' - N ->
          N' - (D + fetch_interval_ms) < TICKS_HALFPERIOD ->
          fetch_fires e' s' = true).
Proof.
  intros e s Hdue Hempty Hpanel s' t.
  rewrite fetch_all_games_spec in Hempty. injection Hempty as Hempty.
  assert (Hit : iteration e s = (Running s', t)).
  { unfold fetch_fires in Hdue. unfold iteration.
    rewrite loop_body_eval, Hdue, refresh_eval.
    cbv zeta. rewrite Hempty, Hpanel. reflexivity. }
  split; [exact Hit|]. split; [reflexivity|]. split; [|split].
  - intros envs Hidle.
    destruct (idle_passes envs s' eq_refl Hidle) as [dc Hp].
    exists dc. cbn [passes]. rewrite Hit, Hp. reflexivity.
  - intros envs e' Hdue'.
    destruct (retry_reached envs e' s' eq_refl Hdue') as (k & after & Hk & Hrun).
    exists k, after. split; [exact Hk|].
    cbn [app run]. rewrite Hit.
    rewrite Hrun. reflexivity.
  - intros D N N' e' HD HN HN' Hwin Hgap Hfar.
    unfold fetch_fires in *. subst s'. cbn [fetch_clock].
    rewrite HD, HN in Hdue. rewrite HD, HN', ticks_add_mod.
    unfold fetch_due, elapsed in *.
    rewrite ticks_diff_wrap_diff in *.
    rewrite wrap_diff_unwrapped in Hdue by assumption.
    rewrite Z.geb_le in Hdue.
    rewrite wrap_diff_unwrapped; [rewrite Z.geb_le; lia|].
    rewrite TICKS_HALFPERIOD_val in *. unfold fetch_interval_ms, fetch_interval in *. lia.
Qed.

Lemma empty_result_recovery_witness :
  exists k after,
    (k <= 2)%nat
    /\ run [pass_offline 300000; pass_offline 305000; pass_offline 305100;
            pass_offline 600000] mid_rotation
       = ([Print LineRefreshing; GcCollect; Fetch; Show ScreenNoGames; Sleep 5000]
          ++ repeat (Sleep 100) k
          ++ Print LineRefreshing :: GcCollect :: Fetch :: after)%list.
Proof.
  exact (proj1 (proj2 (proj2 (proj2
           (empty_result_recovery (pass_offline 300000) mid_rotation
              eq_refl eq_refl eq_refl))))
           [pass_offline 305000; pass_offline 305100] (pass_offline 600000)
           eq_refl).
Defined.

(** C9. A pass whose body raises ends in the handler for the fault and
    in nothing else.  For [MemoryError]: a console line, garbage
    collection, a five-second sleep, the reset.  For any other
    exception: a console line, a ten-second sleep, garbage collection, a
    five-second sleep, the reset.  The reset is called once, it is the
    last action of the run whatever passes were still to come, and a
    pass whose body does not raise calls no reset. *)
Theorem recovery_sequences :
  forall (e : env) (s s1 : state) (r : res unit) (t : list action),
    loop_body e s = (r, s1, t) ->
    (forall x, r = Raise x ->
       iteration e s = (Restarted, (t ++ recover x)%list)
       /\ (forall rest, run (e :: rest) s = (t ++ recover x)%list)
       /\ count is_Reset (t ++ recover x)%list = 1%nat
       /\ (exists pre, (t ++ recover x)%list = (pre ++ [Reset])%list)
       /\ (x = MemoryError ->
           recover x = [Print LineMemoryError; GcCollect; Sleep 5000; Reset]
           /\ filter (fun a => negb (is_Print a)) (recover x)
              = [GcCollect; Sleep 5000; Reset])
       /\ (x <> MemoryError ->
           recover x
           = [Print (LineMainLoopError x); Sleep 10000; GcCollect; Sleep 5000; Reset]))
    /\ (forall u, r = Ok u ->
          iteration e s = (Running s1, t) /\ count is_Reset t = 0%nat).
Proof.
  intros e s s1 r t H.
  pose proof (loop_body_no_reset _ _ _ _ _ H) as Hnr.
  split.
  - intros x ->.
    assert (Hit : iteration e s = (Restarted, (t ++ recover x)%list))
      by (unfold iteration; now rewrite H).
    split; [exact Hit|]. split; [|split; [|split; [|split]]].
    + intros rest. simpl. now rewrite Hit.
    + rewrite count_app, Hnr. now destruct x.
    + destruct (recover_ends_in_reset x) as (pre & -> & _).
      exists (t ++ pre)%list. now rewrite app_assoc.
    + intros ->. split; reflexivity.
    + intros Hx. destruct x; try reflexivity. contradiction.
  - intros u ->. split; [|exact Hnr].
    unfold iteration. now rewrite H.
Qed.

Lemma recovery_sequences_witness :
  run [pass_fault 5000 MemoryError; pass_offline 5100] mid_rotation
  = [Print (LineShowing game_B); GcCollect;
     Print LineMemoryError; GcCollect; Sleep 5000; Reset].
Proof.
  exact (proj1 (proj2 (proj1
    (recovery_sequences (pass_fault 5000 MemoryError) mid_rotation mid_rotation
       (Raise MemoryError) [Print (LineShowing game_B); GcCollect] eq_refl)
    MemoryError eq_refl)) [pass_offline 5100]).
Defined.

(* ================================================================== *)
(** ** Rotation *)
(* ================================================================== *)

Lemma visited_S (L i n : nat) :
  visited L i (S n) = (i mod L)%nat :: visited L ((i + 1) mod L) n.
Proof.
  unfold visited. rewrite <- cons_seq, <- seq_shift, map_cons, map_map.
  rewrite Nat.add_0_r. f_equal.
  apply map_ext. intros k.
  rewrite Nat.Div0.add_mod_idemp_l. f_equal. lia.
Qed.

Lemma mod_inj_window (L a b : nat) :
  (a <= b)%nat -> (b - a < L)%nat -> (a mod L = b mod L)%nat -> a = b.
Proof.
  intros Hab Hd E.
  assert (HL : L <> 0%nat) by lia.
  pose proof (Nat.div_mod_eq a L) as Ha.
  pose proof (Nat.div_mod_eq b L) as Hb.
  rewrite E in Ha.
  assert (a / L = b / L)%nat by nia.
  nia.
Qed.

Lemma visited_NoDup (L i : nat) : NoDup (visited L i L).
Proof.
  unfold visited. apply Injective_map_NoDup_in; [|apply seq_NoDup].
  intros x y Hx Hy E. apply in_seq in Hx, Hy.
  destruct (Nat.le_ge_cases x y).
  - assert (i + x = i + y)%nat by (apply (mod_inj_window L); lia). lia.
  - assert (i + y = i + x)%nat by (apply (mod_inj_window L); [lia|lia|easy]). lia.
Qed.

Lemma visited_permutation (L i : nat) :
  (1 <= L)%nat -> Permutation (visited L i L) (seq 0 L).
Proof.
  intros HL. apply NoDup_Permutation_bis.
  - apply visited_NoDup.
  - unfold visited. now rewrite length_map.
  - intros x Hx. unfold visited in Hx. apply in_map_iff in Hx as (k & <- & _).
    apply in_seq. split; [lia|]. simpl. apply Nat.mod_upper_bound. lia.
Qed.

Lemma show_next_game_ok (e : env) (s : state) :
  panel_ok e ->
  (game_index s < List.length (games s))%nat ->
  exists g,
    nth_error (games s) (game_index s) = Some g
    /\ show_next_game e s
       = (Ok tt,
          mk_state (games s) (fetch_clock s) (display_clock s)
                   ((game_index s + 1) mod List.length (games s))%nat
                   (ScreenGame g),
          [Print (LineShowing g); GcCollect; Show (ScreenGame g)]).
Proof.
  intros He Hi. rewrite show_next_game_eval, He.
  destruct (nth_error (games s) (game_index s)) as [g|] eqn:E.
  - exists g. split; [reflexivity|].
    destruct (games s); [simpl in Hi; lia | reflexivity].
  - apply nth_error_None in E. lia.
Qed.

Lemma rotations_spec (envs : list env) :
  Forall panel_ok envs ->
  forall s,
    (game_index s < List.length (games s))%nat ->
    exists s' t,
      rotations envs s = (Ok tt, s', t)
      /\ games s' = games s
      /\ fetch_clock s' = fetch_clock s
      /\ display_clock s' = display_clock s
      /\ game_index s'
         = ((game_index s + List.length envs) mod List.length (games s))%nat
      /\ map Some (shown t)
         = map (nth_error (games s))
               (visited (List.length (games s)) (game_index s) (List.length envs)).
Proof.
  induction 1 as [|e rest He _ IH]; intros s Hi.
  - exists s, []. simpl. rewrite Nat.add_0_r, Nat.mod_small by assumption.
    repeat split.
  - destruct (show_next_game_ok e s He Hi) as (g & Hg & Hshow).
    set (s1 := mk_state (games s) (fetch_clock s) (display_clock s)
                        ((game_index s + 1) mod List.length (games s))%nat
                        (ScreenGame g)) in *.
    assert (Hi1 : (game_index s1 < List.length (games s1))%nat).
    { simpl. apply Nat.mod_upper_bound. lia. }
    destruct (IH s1 Hi1) as (s' & t & Hrot & Hg' & Hf & Hd & Hidx & Hsh).
    exists s', ([Print (LineShowing g); GcCollect; Show (ScreenGame g)] ++ t)%list.
    cbn [rotations]. unfold mbind. rewrite Hshow, Hrot.
    simpl games in *. simpl fetch_clock in *. simpl display_clock in *.
    simpl game_index in *.
    repeat split; try assumption.
    + rewrite Hidx. rewrite Nat.Div0.add_mod_idemp_l.
      f_equal. simpl List.length. lia.
    + cbn [List.length]. rewrite visited_S. cbn [shown app map]. rewrite Hsh.
      rewrite (Nat.mod_small (game_index s)) by assumption.
      now rewrite Hg.
Qed.

(** C5. With [L >= 1] games installed and the index inside the list, a
    rotation call shows the game at the index and leaves the index one
    further, modulo [L].  Calls in a row, with no refresh between them,
    show the games at [i, i+1, ...] modulo [L]; over [L] calls these
    indices are each index once, and the sequence repeats with period
    [L].  With no game installed a call selects nothing and changes
    nothing. *)
Theorem rotation_visits_every_index :
  forall (envs : list env) (s : state),
    Forall panel_ok envs ->
    let L := List.length (games s) in
    let i := game_index s in
    (L = 0%nat -> rotations envs s = (Ok tt, s, []))
    /\ ((1 <= L)%nat -> (i < L)%nat ->
        (forall e, panel_ok e ->
           exists g,
             nth_error (games s) i = Some g
             /\ show_next_game e s
                = (Ok tt,
                   mk_state (games s) (fetch_clock s) (display_clock s)
                            ((i + 1) mod L)%nat (ScreenGame g),
                   [Print (LineShowing g); GcCollect; Show (ScreenGame g)]))
        /\ (exists s' t,
              rotations envs s = (Ok tt, s', t)
              /\ games s' = games s
              /\ game_index s' = ((i + List.length envs) mod L)%nat
              /\ map Some (shown t)
                 = map (nth_error (games s)) (visited L i (List.length envs)))
        /\ Permutation (visited L i L) (seq 0 L)
        /\ (forall k, ((i + (k + L)) mod L = (i + k) mod L)%nat)).
Proof.
  intros envs s Hok L i. split.
  - intros HL. apply length_zero_iff_nil in HL.
    clear Hok. revert envs. induction envs as [|e rest IH]; [reflexivity|].
    cbn [rotations]. unfold mbind.
    rewrite show_next_game_eval, HL, IH. reflexivity.
  - intros HL Hi. split; [|split; [|split]].
    + intros e He. apply show_next_game_ok; assumption.
    + destruct (rotations_spec envs Hok s Hi)
        as (s' & t & H1 & H2 & _ & _ & H3 & H4).
      exists s', t. repeat split; assumption.
    + apply visited_permutation. exact HL.
    + intros k. replace (i + (k + L))%nat with ((i + k) + 1 * L)%nat by lia.
      apply Nat.Div0.mod_add.
Qed.

Lemma rotation_visits_every_index_witness :
  Permutation (visited 2 1 2) (seq 0 2)
  /\ exists s' t,
       rotations [pass_offline 5000; pass_offline 10000; pass_offline 15000]
                 mid_rotation = (Ok tt, s', t)
       /\ games s' = games mid_rotation
       /\ game_index s' = 0%nat
       /\ map Some (shown t) = [Some game_B; Some game_A; Some game_B].
Proof.
  assert (Hok : Forall panel_ok
                  [pass_offline 5000; pass_offline 10000; pass_offline 15000])
    by (repeat constructor).
  destruct (rotation_visits_every_index _ mid_rotation Hok) as [_ H].
  destruct (H (le_S _ _ (le_n 1)) (le_n 2)) as (_ & R & P & _).
  exact (conj P R).
Defined.

(* ================================================================== *)
(** ** The calendar *)
(* ================================================================== *)

Module DatetimeFacts.
Import Datetime.

Lemma is_leap_true (y : Z) :
  is_leap y = true <-> (y mod 4 = 0 /\ (y mod 100 <> 0 \/ y mod 400 = 0)).
Proof.
  unfold is_leap.
  rewrite andb_true_iff, orb_true_iff, negb_true_iff, !Z.eqb_eq, Z.eqb_neq.
  reflexivity.
Qed.

(** The cascade of divisions in [ord2ymd] finds the year and the day
    of the year. *)
Lemma year_split (n0 : Z) :
  0 <= n0 ->
  let n400 := n0 / DI400Y in
  let r1 := n0 mod DI400Y in
  let n100 := r1 / DI100Y in
  let r2 := r1 mod DI100Y in
  let n4 := r2 / DI4Y in
  let r3 := r2 mod DI4Y in
  let n1 := r3 / 365 in
  let r4 := r3 mod 365 in
  let y := n400 * 400 + 1 + (n100 * 100 + n4 * 4 + n1) in
  (n1 = 4 \/ n100 = 4 -> days_before_year (y - 1) + 365 = n0
                         /\ is_leap (y - 1) = true /\ 1 <= y - 1)
  /\ (n1 <> 4 -> n100 <> 4 ->
      days_before_year y + r4 = n0
      /\ (is_leap y = true <-> (n1 = 3 /\ (n4 <> 24 \/ n100 = 3)))
      /\ 0 <= r4 < 365 /\ 1 <= y)
  /\ (n0 < MAXORDINAL ->
      y - 1 <= MAXYEAR /\ ((n1 <> 4 /\ n100 <> 4) -> y <= MAXYEAR)).
Proof.
  intros H0. cbv zeta.
  change DI400Y with 146097. change DI100Y with 36524. change DI4Y with 1461.
  change MAXORDINAL with 3652059. change MAXYEAR with 9999.
  rewrite !is_leap_true.
  unfold days_before_year.
  repeat split; intros; Z.to_euclidean_division_equations; lia.
Qed.

Lemma month_day_table (leapyear : bool) :
  forallb (month_day_ok leapyear) days_of_year = true.
Proof. destruct leapyear; vm_compute; reflexivity. Qed.

Lemma month_day_spec (n : Z) (leapyear : bool) :
  0 <= n < 365 -> month_day_ok leapyear n = true.
Proof.
  intros Hn.
  pose proof (month_day_table leapyear) as H.
  rewrite forallb_forall in H. apply H.
  unfold days_of_year. apply in_map_iff.
  exists (Z.to_nat n). split; [lia|]. apply in_seq. lia.
Qed.

Lemma ord2ymd_unfold (n : Z) :
  ord2ymd n
  = let n0 := n - 1 in
    let n400 := n0 / DI400Y in
    let r1 := n0 mod DI400Y in
    let n100 := r1 / DI100Y in
    let r2 := r1 mod DI100Y in
    let n4 := r2 / DI4Y in
    let r3 := r2 mod DI4Y in
    let n1 := r3 / 365 in
    let r4 := r3 mod 365 in
    let y := n400 * 400 + 1 + (n100 * 100 + n4 * 4 + n1) in
    if (n1 =? 4) || (n100 =? 4) then (y - 1, 12, 31)
    else let '(m, d) :=
           month_day r4 ((n1 =? 3) && (negb (n4 =? 24) || (n100 =? 3))) in
         (y, m, d).
Proof.
  unfold ord2ymd, month_day. cbv zeta.
  destruct (_ || _); [reflexivity|].
  destruct (_ >? _); reflexivity.
Qed.

(** [ord2ymd] inverts [ymd2ord] and lands on a date that exists. *)
Lemma ord2ymd_correct (n : Z) :
  1 <= n <= MAXORDINAL ->
  let '(y, m, d) := ord2ymd n in
  ymd2ord y m d = n
  /\ MINYEAR <= y <= MAXYEAR
  /\ 1 <= m <= 12
  /\ 1 <= d <= days_in_month y m.
Proof.
  intros Hn. rewrite ord2ymd_unfold. cbv zeta.
  assert (H0 : 0 <= n - 1) by lia.
  destruct (year_split (n - 1) H0) as (Hsp & Hno & Hmax).
  cbv zeta in Hsp, Hno, Hmax.
  assert (Hlt : n - 1 < MAXORDINAL) by lia.
  destruct (Hmax Hlt) as [Hy1 Hy2].
  destruct (_ || _) eqn:Ecase.
  - apply orb_true_iff in Ecase. rewrite !Z.eqb_eq in Ecase.
    destruct (Hsp Ecase) as (Hd & Hl & Hpos).
    unfold ymd2ord, days_before_month, days_in_month. rewrite Hl. simpl.
    change (tbl DAYS_BEFORE_MONTH 12) with 334.
    change (tbl DAYS_IN_MONTH 12) with 31.
    unfold MINYEAR. lia.
  - apply orb_false_iff in Ecase. rewrite !Z.eqb_neq in Ecase.
    destruct Ecase as [E1 E2].
    destruct (Hno E1 E2) as (Hd & Hl & Hr & Hpos).
    set (leap := (_ =? 3) && _) in *.
    assert (Hleap : is_leap (((n - 1) / DI400Y) * 400 + 1
                     + (((n - 1) mod DI400Y / DI100Y) * 100
                        + ((n - 1) mod DI400Y mod DI100Y / DI4Y) * 4
                        + (n - 1) mod DI400Y mod DI100Y mod DI4Y / 365)) = leap).
    { apply eq_true_iff_eq. rewrite Hl. subst leap.
      rewrite andb_true_iff, orb_true_iff, negb_true_iff, !Z.eqb_eq, Z.eqb_neq.
      reflexivity. }
    pose proof (month_day_spec _ leap Hr) as Hmd.
    unfold month_day_ok in Hmd.
    destruct (month_day _ leap) as [m d].
    rewrite !andb_true_iff, !Z.leb_le, Z.eqb_eq in Hmd.
    destruct Hmd as ((((Hm1 & Hm2) & Hd1) & Hd2) & Hsum).
    unfold ymd2ord, days_before_month, days_in_month. rewrite Hleap.
    unfold MINYEAR. specialize (Hy2 (conj E1 E2)). lia.
Qed.

Lemma valid_fields_iff (y mo d h mi : Z) :
  valid_fields y mo d h mi = true
  <-> MINYEAR <= y <= MAXYEAR /\ 1 <= mo <= 12 /\ 1 <= d <= days_in_month y mo
      /\ 0 <= h <= 23 /\ 0 <= mi <= 59.
Proof.
  unfold valid_fields. rewrite !andb_true_iff, !Z.leb_le. tauto.
Qed.

(** Adding whole hours: when the sum stays in the calendar the result is
    the date and time that many minutes later; otherwise the library
    raises. *)
Lemma add_hours_spec (y mo d h mi hours : Z) :
  valid_fields y mo d h mi = true ->
  let M := minutes_of y mo d h mi + 60 * hours in
  if in_calendar M then
    exists y' mo' d' h' mi',
      add_hours (mk_datetime y mo d h mi) hours = Ok (mk_datetime y' mo' d' h' mi')
      /\ valid_fields y' mo' d' h' mi' = true
      /\ minutes_of y' mo' d' h' mi' = M
  else add_hours (mk_datetime y mo d h mi) hours = Raise OverflowError.
Proof.
  intros Hv M. apply valid_fields_iff in Hv as (Hy & Hmo & Hd & Hh & Hmi).
  unfold add_hours. cbn [year month day hour minute].
  set (total := ymd2ord y mo d * 86400 + h * 3600 + mi * 60 + hours * 3600).
  assert (Ht : total = 60 * M) by (subst total M; unfold minutes_of; ring).
  assert (Hdays : total / 86400 = M / 1440)
    by (rewrite Ht; Z.to_euclidean_division_equations; lia).
  assert (Hsec : total mod 86400 = 60 * (M mod 1440))
    by (rewrite Ht; Z.to_euclidean_division_equations; lia).
  rewrite Hdays, Hsec.
  unfold in_calendar. change ((MAXORDINAL + 1) * 1440) with 5258966400.
  destruct ((1440 <=? M) && (M <? 5258966400)) eqn:Ein.
  - apply andb_true_iff in Ein as [E1 E2].
    apply Z.leb_le in E1. apply Z.ltb_lt in E2.
    assert (Hrange : 1 <= M / 1440 <= MAXORDINAL)
      by (unfold MAXORDINAL; Z.to_euclidean_division_equations; lia).
    replace ((0 <? M / 1440) && (M / 1440 <=? MAXORDINAL)) with true
      by (symmetry; apply andb_true_iff; split;
          [apply Z.ltb_lt | apply Z.leb_le]; lia).
    pose proof (ord2ymd_correct (M / 1440) Hrange) as Hc.
    destruct (ord2ymd (M / 1440)) as [[y' mo'] d'].
    destruct Hc as (Hord & Hy' & Hmo' & Hd').
    eexists y', mo', d', _, _. split; [reflexivity|]. split.
    + apply valid_fields_iff. repeat split; try tauto;
        Z.to_euclidean_division_equations; lia.
    + unfold minutes_of. rewrite Hord.
      Z.to_euclidean_division_equations; lia.
  - replace ((0 <? M / 1440) && (M / 1440 <=? MAXORDINAL)) with false;
      [reflexivity|].
    symmetry. apply andb_false_iff.
    apply andb_false_iff in Ein as [E|E].
    + left. apply Z.leb_gt in E. apply Z.ltb_ge.
      Z.to_euclidean_division_equations; lia.
    + right. apply Z.ltb_ge in E. apply Z.leb_gt. unfold MAXORDINAL.
      Z.to_euclidean_division_equations; lia.
Qed.

Lemma days_before_year_next (y : Z) :
  days_before_year (y + 1) = days_before_year y + 365 + (if is_leap y then 1 else 0).
Proof.
  destruct (is_leap y) eqn:E.
  - apply is_leap_true in E. unfold days_before_year.
    Z.to_euclidean_division_equations; lia.
  - assert (H : ~ (y mod 4 = 0 /\ (y mod 100 <> 0 \/ y mod 400 = 0))).
    { intros H. apply is_leap_true in H. congruence. }
    unfold days_before_year. Z.to_euclidean_division_equations; lia.
Qed.

Lemma days_before_year_mono (y1 y2 : Z) :
  y1 <= y2 -> days_before_year y1 <= days_before_year y2.
Proof.
  intros H. unfold days_before_year. Z.to_euclidean_division_equations; lia.
Qed.

Ltac eval_closed :=
  repeat match goal with
    | |- context [tbl ?t ?k] =>
        let v := eval vm_compute in (tbl t k) in change (tbl t k) with v
    | H : context [tbl ?t ?k] |- _ =>
        let v := eval vm_compute in (tbl t k) in change (tbl t k) with v in H
    | |- context [if ?b then _ else _] =>
        let v := eval vm_compute in b in change b with v; cbv iota
    | H : context [if ?b then _ else _] |- _ =>
        let v := eval vm_compute in b in change b with v in H; cbv iota in H
    end.

Lemma month_cases (m : Z) :
  1 <= m <= 12 ->
  m = 1 \/ m = 2 \/ m = 3 \/ m = 4 \/ m = 5 \/ m = 6 \/ m = 7 \/ m = 8
  \/ m = 9 \/ m = 10 \/ m = 11 \/ m = 12.
Proof. lia. Qed.

Lemma day_of_year_range (y m d : Z) :
  1 <= m <= 12 -> 1 <= d <= days_in_month y m ->
  1 <= days_before_month y m + d <= 365 + (if is_leap y then 1 else 0).
Proof.
  intros Hm Hd. unfold days_before_month, days_in_month in *.
  destruct (is_leap y);
    destruct (month_cases m Hm) as [->|[->|[->|[->|[->|[->|[->|[->|[->|[->|[->| ->]]]]]]]]]]];
    eval_closed; lia.
Qed.

Lemma day_of_year_inj (y m1 d1 m2 d2 : Z) :
  1 <= m1 <= 12 -> 1 <= d1 <= days_in_month y m1 ->
  1 <= m2 <= 12 -> 1 <= d2 <= days_in_month y m2 ->
  days_before_month y m1 + d1 = days_before_month y m2 + d2 ->
  m1 = m2 /\ d1 = d2.
Proof.
  intros Hm1 Hd1 Hm2 Hd2. unfold days_before_month, days_in_month in *.
  destruct (is_leap y);
    destruct (month_cases m1 Hm1) as [->|[->|[->|[->|[->|[->|[->|[->|[->|[->|[->| ->]]]]]]]]]]];
    destruct (month_cases m2 Hm2) as [->|[->|[->|[->|[->|[->|[->|[->|[->|[->|[->| ->]]]]]]]]]]];
    eval_closed; lia.
Qed.

Lemma ymd2ord_bounds (y m d : Z) :
  1 <= m <= 12 -> 1 <= d <= days_in_month y m ->
  days_before_year y < ymd2ord y m d <= days_before_year (y + 1).
Proof.
  intros Hm Hd. pose proof (day_of_year_range y m d Hm Hd).
  rewrite days_before_year_next. unfold ymd2ord. lia.
Qed.

Lemma ymd2ord_inj (y1 m1 d1 y2 m2 d2 : Z) :
  1 <= m1 <= 12 -> 1 <= d1 <= days_in_month y1 m1 ->
  1 <= m2 <= 12 -> 1 <= d2 <= days_in_month y2 m2 ->
  ymd2ord y1 m1 d1 = ymd2ord y2 m2 d2 ->
  y1 = y2 /\ m1 = m2 /\ d1 = d2.
Proof.
  intros Hm1 Hd1 Hm2 Hd2 E.
  pose proof (ymd2ord_bounds y1 m1 d1 Hm1 Hd1) as B1.
  pose proof (ymd2ord_bounds y2 m2 d2 Hm2 Hd2) as B2.
  assert (Hy : y1 = y2).
  { destruct (Z.lt_trichotomy y1 y2) as [L|[L|L]]; [|exact L|].
    - pose proof (days_before_year_mono (y1 + 1) y2). lia.
    - pose proof (days_before_year_mono (y2 + 1) y1). lia. }
  subst y2. split; [reflexivity|].
  apply (day_of_year_inj y1); try assumption.
  unfold ymd2ord in E. lia.
Qed.

Lemma minutes_of_inj (y1 mo1 d1 h1 mi1 y2 mo2 d2 h2 mi2 : Z) :
  valid_fields y1 mo1 d1 h1 mi1 = true ->
  valid_fields y2 mo2 d2 h2 mi2 = true ->
  minutes_of y1 mo1 d1 h1 mi1 = minutes_of y2 mo2 d2 h2 mi2 ->
  (y1, mo1, d1, h1, mi1) = (y2, mo2, d2, h2, mi2).
Proof.
  intros V1 V2 E.
  apply valid_fields_iff in V1 as (_ & Hm1 & Hd1 & Hh1 & Hi1).
  apply valid_fields_iff in V2 as (_ & Hm2 & Hd2 & Hh2 & Hi2).
  unfold minutes_of in E.
  assert (Ho : ymd2ord y1 mo1 d1 = ymd2ord y2 mo2 d2) by lia.
  destruct (ymd2ord_inj _ _ _ _ _ _ Hm1 Hd1 Hm2 Hd2 Ho) as (-> & -> & ->).
  assert (h1 = h2) by lia. assert (mi1 = mi2) by lia. congruence.
Qed.

End DatetimeFacts.

(* ================================================================== *)
(** ** Reading numbers out of text *)
(* ================================================================== *)

Lemma digit_not_space_or_sign (c : ascii) :
  is_digit c = true ->
  is_space c = false /\ Ascii.eqb c "-" = false /\ Ascii.eqb c "+" = false.
Proof.
  destruct c as [[] [] [] [] [] [] [] []]; intros H;
    try discriminate H; repeat split.
Qed.

Lemma all_digits_cons (c : ascii) (s : string) :
  all_digits (String c s) = is_digit c && all_digits s.
Proof. reflexivity. Qed.

Lemma rstrip_digits (s : string) : all_digits s = true -> rstrip s = s.
Proof.
  induction s as [|c rest IH]; [reflexivity|].
  rewrite all_digits_cons, andb_true_iff. intros [Hc Hrest].
  simpl. rewrite (IH Hrest).
  destruct rest; [|reflexivity].
  now rewrite (proj1 (digit_not_space_or_sign c Hc)).
Qed.

Lemma lstrip_digits (s : string) : all_digits s = true -> lstrip s = s.
Proof.
  destruct s as [|c rest]; [reflexivity|].
  rewrite all_digits_cons, andb_true_iff. intros [Hc _].
  simpl. now rewrite (proj1 (digit_not_space_or_sign c Hc)).
Qed.

Lemma digits_all (s : string) :
  all_digits s = true -> forall acc, exists n, digits acc s = Some n.
Proof.
  induction s as [|c rest IH]; intros H acc; [now exists acc|].
  rewrite all_digits_cons, andb_true_iff in H. destruct H as [Hc Hrest].
  simpl. rewrite Hc. apply IH, Hrest.
Qed.

Lemma digits_cons (acc : Z) (c : ascii) (s : string) :
  is_digit c = true ->
  digits acc (String c s) = digits (10 * acc + digit_val c) s.
Proof. intros H. cbn [digits]. now rewrite H. Qed.

(** A non-empty run of digits reads as the number it spells. *)
Lemma int_of_str_digits (s : string) :
  s <> EmptyString -> all_digits s = true ->
  exists n, digits 0 s = Some n /\ int_of_str s = Ok n.
Proof.
  intros Hne Hd. destruct (digits_all s Hd 0) as [n Hn].
  exists n. split; [exact Hn|].
  unfold int_of_str. rewrite (lstrip_digits s Hd), (rstrip_digits s Hd).
  destruct s as [|c rest]; [contradiction|].
  rewrite all_digits_cons, andb_true_iff in Hd. destruct Hd as [Hc _].
  destruct (digit_not_space_or_sign c Hc) as (_ & Hm & Hp).
  rewrite Hm, Hp, Hc, Hn. f_equal. lia.
Qed.

Lemma int_of_str_2 (a b : ascii) :
  is_digit a = true -> is_digit b = true ->
  int_of_str (String a (String b EmptyString)) = Ok (num2 a b).
Proof.
  intros Ha Hb.
  destruct (int_of_str_digits (String a (String b EmptyString))) as (n & Hn & ->);
    [discriminate | unfold all_digits; simpl; now rewrite Ha, Hb |].
  apply f_equal.
  assert (E : digits 0 (String a (String b EmptyString)) = Some (num2 a b)).
  { rewrite !digits_cons by assumption.
    cbv beta iota delta [digits]. apply f_equal. unfold num2. ring. }
  congruence.
Qed.

Lemma int_of_str_4 (a b c d : ascii) :
  is_digit a = true -> is_digit b = true ->
  is_digit c = true -> is_digit d = true ->
  int_of_str (String a (String b (String c (String d EmptyString))))
  = Ok (num4 a b c d).
Proof.
  intros Ha Hb Hc Hd.
  destruct (int_of_str_digits
              (String a (String b (String c (String d EmptyString)))))
    as (n & Hn & ->);
    [discriminate | unfold all_digits; simpl; now rewrite Ha, Hb, Hc, Hd |].
  apply f_equal.
  assert (E : digits 0 (String a (String b (String c (String d EmptyString))))
              = Some (num4 a b c d)).
  { rewrite !digits_cons by assumption.
    cbv beta iota delta [digits]. apply f_equal. unfold num4. ring. }
  congruence.
Qed.

(** The five slices of a text with digits at the twelve places. *)
Lemma int_slices_of_date_fields (s : string) (y mo d h mi : Z) :
  date_fields s = Some (y, mo, d, h, mi) ->
  int_slice (PStr s) 0 4 = Ok y
  /\ int_slice (PStr s) 5 7 = Ok mo
  /\ int_slice (PStr s) 8 10 = Ok d
  /\ int_slice (PStr s) 11 13 = Ok h
  /\ int_slice (PStr s) 14 16 = Ok mi.
Proof.
  unfold date_fields.
  do 16 (destruct s as [|? s]; [discriminate|]).
  cbn [list_ascii_of_string].
  destruct (forallb _ _) eqn:E; [|discriminate].
  cbn [forallb] in E. rewrite !andb_true_iff in E.
  destruct E as (? & ? & ? & ? & ? & ? & ? & ? & ? & ? & ? & ? & _).
  intros Hsome. injection Hsome as <- <- <- <- <-.
  unfold int_slice. cbn [Nat.sub substring].
  replace (substring 0 0 s) with EmptyString by (destruct s; reflexivity).
  repeat split; first [apply int_of_str_4 | apply int_of_str_2]; assumption.
Qed.

Lemma In_lstrip (c : ascii) (s : string) :
  In c (list_ascii_of_string s) -> is_space c = false ->
  In c (list_ascii_of_string (lstrip s)).
Proof.
  induction s as [|a rest IH]; [intros []|].
  intros Hin Hc. simpl lstrip.
  destruct (is_space a) eqn:Ea; [|exact Hin].
  destruct Hin as [->|Hin]; [congruence | now apply IH].
Qed.

Lemma In_rstrip (c : ascii) (s : string) :
  In c (list_ascii_of_string s) -> is_space c = false ->
  In c (list_ascii_of_string (rstrip s)).
Proof.
  induction s as [|a rest IH]; [intros []|].
  intros Hin Hc. simpl rstrip.
  destruct Hin as [->|Hin].
  - destruct (rstrip rest); [rewrite Hc|]; now left.
  - specialize (IH Hin Hc).
    destruct (rstrip rest); [destruct IH | now right].
Qed.

Lemma digits_Some_all (s : string) :
  forall acc n, digits acc s = Some n ->
  forall c, In c (list_ascii_of_string s) ->
  is_digit c || Ascii.eqb c "_" = true.
Proof.
  induction s as [|a rest IH]; intros acc n H c Hin; [destruct Hin|].
  cbn [digits] in H. destruct (is_digit a) eqn:Ea.
  - destruct Hin as [<-|Hin]; [now rewrite Ea | eapply IH; eassumption].
  - destruct (Ascii.eqb a "_") eqn:Eu; [|discriminate].
    destruct Hin as [<-|Hin]; [now rewrite Eu, orb_true_r|].
    destruct rest as [|d rest']; [discriminate|].
    destruct (is_digit d); [|discriminate].
    eapply IH; eassumption.
Qed.

Lemma digit_or_underscore_plain (c : ascii) :
  is_digit c || Ascii.eqb c "_" = true -> plain_char c = true.
Proof.
  unfold plain_char. intros H. apply orb_true_iff in H.
  destruct H as [-> | ->]; [reflexivity | now rewrite !orb_true_r].
Qed.

(** What [int()] accepts is made of plain characters. *)
Lemma int_of_str_Ok_plain (s : string) (n : Z) :
  int_of_str s = Ok n ->
  forall c, In c (list_ascii_of_string s) -> plain_char c = true.
Proof.
  intros H c Hin.
  destruct (is_space c) eqn:Esp;
    [unfold plain_char; now rewrite Esp, orb_true_r|].
  pose proof (In_rstrip c _ (In_lstrip c s Hin Esp) Esp) as Ht.
  unfold int_of_str in H.
  destruct (rstrip (lstrip s)) as [|a rest] eqn:Et; [destruct Ht|].
  assert (Hbody : forall sign body,
            match body with
            | EmptyString => Raise ValueError
            | String x _ =>
                if is_digit x then
                  match digits 0 body with
                  | Some k => Ok (sign * k)
                  | None => Raise ValueError
                  end
                else Raise ValueError
            end = Ok n ->
            In c (list_ascii_of_string body) -> plain_char c = true).
  { intros sign body Hb Hc. destruct body as [|x body]; [destruct Hc|].
    destruct (is_digit x); [|discriminate].
    destruct (digits 0 (String x body)) eqn:Ed; [|discriminate].
    apply digit_or_underscore_plain. eapply digits_Some_all; eassumption. }
  destruct (Ascii.eqb a "-") eqn:Em; [|destruct (Ascii.eqb a "+") eqn:Ep].
  - destruct Ht as [<-|Ht];
      [unfold plain_char; now rewrite Em, !orb_true_r | exact (Hbody (-1) rest H Ht)].
  - destruct Ht as [<-|Ht];
      [unfold plain_char; now rewrite Ep, !orb_true_r | exact (Hbody 1 rest H Ht)].
  - exact (Hbody 1 (String a rest) H Ht).
Qed.

Lemma int_of_str_unreadable (f : string) :
  unreadable f = true -> int_of_str f = Raise ValueError.
Proof.
  intros H. destruct (int_of_str f) as [n|e] eqn:E.
  - exfalso. destruct f as [|a rest]; [discriminate E|].
    unfold unreadable in H. apply negb_true_iff in H.
    assert (forallb plain_char (list_ascii_of_string (String a rest)) = true).
    { apply forallb_forall. intros c Hc. eapply int_of_str_Ok_plain; eassumption. }
    congruence.
  - unfold int_of_str in E.
    destruct (rstrip (lstrip f)) as [|a rest]; [congruence|].
    destruct (Ascii.eqb a "-"); [|destruct (Ascii.eqb a "+")];
      repeat match type of E with
        | context [match ?b with EmptyString => _ | String _ _ => _ end] => destruct b
        | context [if is_digit ?x then _ else _] => destruct (is_digit x)
        | context [match digits ?a ?b with _ => _ end] => destruct (digits a b)
        end; congruence.
Qed.

(* ================================================================== *)
(** ** Date conversion *)
(* ================================================================== *)

Lemma hour12_code (h : Z) :
  0 <= h <= 23 ->
  (if (if h <=? 12 then h else h - 12) =? 0 then 12
   else if h <=? 12 then h else h - 12) = hour12 h.
Proof.
  intros Hh. unfold hour12.
  destruct (Z.leb_spec h 12);
    destruct (Z.eqb_spec (h mod 12) 0);
    repeat match goal with
      | |- context [?a =? 0] => destruct (Z.eqb_spec a 0)
      end;
    try reflexivity; Z.to_euclidean_division_equations; lia.
Qed.

(** The conversion of a text with digits at the twelve places. *)
Lemma convert_digits (s : string) (tz y mo d h mi : Z) :
  date_fields s = Some (y, mo, d, h, mi) ->
  let M := Datetime.minutes_of y mo d h mi + 60 * tz in
  if Datetime.valid_fields y mo d h mi && in_calendar M then
    exists y' mo' d' h' mi',
      Datetime.valid_fields y' mo' d' h' mi' = true
      /\ Datetime.minutes_of y' mo' d' h' mi' = M
      /\ (forall y2 mo2 d2 h2 mi2,
            Datetime.valid_fields y2 mo2 d2 h2 mi2 = true ->
            Datetime.minutes_of y2 mo2 d2 h2 mi2 = M ->
            (y2, mo2, d2, h2, mi2) = (y', mo', d', h', mi'))
      /\ convert_date_format (PStr s) tz = local_text mo' d' h' mi'
  else convert_date_format (PStr s) tz = "TBD".
Proof.
  intros Hf M.
  destruct (int_slices_of_date_fields s y mo d h mi Hf) as (H1 & H2 & H3 & H4 & H5).
  unfold convert_date_format, convert_date_format_body.
  rewrite H1, H2, H3, H4, H5. cbn [bind].
  unfold Datetime.make.
  destruct (Datetime.valid_fields y mo d h mi) eqn:Ev; [|reflexivity].
  cbn [bind andb].
  pose proof (DatetimeFacts.add_hours_spec y mo d h mi tz Ev) as Ha.
  cbv zeta in Ha. fold M in Ha.
  destruct (in_calendar M).
  - destruct Ha as (y' & mo' & d' & h' & mi' & -> & Hv' & HM).
    exists y', mo', d', h', mi'. split; [exact Hv'|]. split; [exact HM|].
    split.
    { intros y2 mo2 d2 h2 mi2 V2 M2.
      apply DatetimeFacts.minutes_of_inj; [exact V2 | exact Hv' | congruence]. }
    cbn [bind catch Datetime.month Datetime.day Datetime.hour Datetime.minute].
    unfold local_text, am_pm.
    apply DatetimeFacts.valid_fields_iff in Hv' as (_ & _ & _ & Hh' & _).
    now rewrite (hour12_code h' Hh').
  - now rewrite Ha.
Qed.

Lemma int_slice_unreadable (s : string) (a b : nat) :
  unreadable (substring a (b - a) s) = true ->
  int_slice (PStr s) a b = Raise ValueError.
Proof. intros H. unfold int_slice. now apply int_of_str_unreadable. Qed.

Lemma convert_unreadable (s : string) (tz : Z) :
  existsb unreadable (field_texts s) = true ->
  convert_date_format (PStr s) tz = "TBD".
Proof.
  unfold field_texts. cbn [existsb]. rewrite !orb_true_iff.
  intros H.
  unfold convert_date_format, convert_date_format_body.
  destruct H as [H|[H|[H|[H|[H|H]]]]]; [| | | | |discriminate H];
    (apply (int_slice_unreadable s 0 4) in H
     || apply (int_slice_unreadable s 5 7) in H
     || apply (int_slice_unreadable s 8 10) in H
     || apply (int_slice_unreadable s 11 13) in H
     || apply (int_slice_unreadable s 14 16) in H);
    repeat match goal with
      | |- context [bind (int_slice (PStr s) ?a ?b) _] =>
          first [ rewrite H; cbn [bind catch]; reflexivity
                | destruct (int_slice (PStr s) a b); cbn [bind catch];
                  [|reflexivity] ]
      end.
Qed.

(** C6, as stated, fails on both sides.  A text with digits at the
    twelve places but the wrong separators is not a timestamp of the
    stated form, and is converted all the same; and a well-formed
    timestamp in the first hours of year 1 has no local time the
    library can hold at a negative offset, and gives "TBD". *)
Lemma malformed_text_is_converted :
  well_formed_timestamp "2024x01x15x00x30" = false
  /\ convert_date_format (PStr "2024x01x15x00x30") (-5) = "1/14 7:30PM"
  /\ convert_date_format (PStr "2024x01x15x00x30") (-5) <> "TBD"
  /\ well_formed_timestamp "0001-01-01T00:30" = true
  /\ convert_date_format (PStr "0001-01-01T00:30") (-5) = "TBD".
Proof. repeat split. discriminate. Qed.

(** C6, amended.  The two stated examples hold.  For a text with
    decimal digits at the places of the five fields (the characters
    between them are not looked at): when the fields name a date and a
    time that exist and the instant moved by the offset stays within
    years 1 to 9999, the result is [M/D H:MMAM|PM] for the one date and
    time that lie exactly [60 * offset] minutes from the given ones, the
    minute on two digits and the hour on the twelve-hour clock with 12
    for hours 0 and 12; otherwise the result is "TBD".  The result is
    also "TBD" when a field is empty or holds an ASCII character that is
    not a digit, white space, a sign or an underscore, and for every
    value that is not a string.  The function returns in all cases. *)
Theorem convert_date_format_spec :
  forall (date_str : pyval) (tz : Z),
    convert_date_format (PStr "2024-01-15T00:30") (-5) = "1/14 7:30PM"
    /\ convert_date_format (PStr "2024-06-01T17:00") (-5) = "6/1 12:00PM"
    /\ (forall s y mo d h mi,
          date_str = PStr s ->
          date_fields s = Some (y, mo, d, h, mi) ->
          let M := Datetime.minutes_of y mo d h mi + 60 * tz in
          if Datetime.valid_fields y mo d h mi && in_calendar M then
            exists y' mo' d' h' mi',
              Datetime.valid_fields y' mo' d' h' mi' = true
              /\ Datetime.minutes_of y' mo' d' h' mi' = M
              /\ (forall y2 mo2 d2 h2 mi2,
                    Datetime.valid_fields y2 mo2 d2 h2 mi2 = true ->
                    Datetime.minutes_of y2 mo2 d2 h2 mi2 = M ->
                    (y2, mo2, d2, h2, mi2) = (y', mo', d', h', mi'))
              /\ convert_date_format date_str tz = local_text mo' d' h' mi'
          else convert_date_format date_str tz = "TBD")
    /\ (forall s,
          date_str = PStr s ->
          existsb unreadable (field_texts s) = true ->
          convert_date_format date_str tz = "TBD")
    /\ ((forall s, date_str <> PStr s) ->
        convert_date_format date_str tz = "TBD").
Proof.
  intros date_str tz. split; [reflexivity|]. split; [reflexivity|].
  split; [|split].
  - intros s y mo d h mi -> Hf. apply convert_digits, Hf.
  - intros s -> H. apply convert_unreadable, H.
  - intros H. destruct date_str; try reflexivity.
    exfalso. apply (H s). reflexivity.
Qed.

(* ================================================================== *)
(** ** The index stays inside the list *)
(* ================================================================== *)

Lemma index_ok_iteration (e : env) (s s' : state) (t : list action) :
  index_ok s -> iteration e s = (Running s', t) -> index_ok s'.
Proof.
  unfold index_ok. intros Hs.
  case_pass e s; intros H; try discriminate H; injection H as <- <-;
    cbn [games fetch_clock display_clock game_index root_group
         set_display_clock set_root_group];
    try (left; reflexivity);
    try (right; cbn [List.length]; first [apply Nat.mod_upper_bound; lia | lia]);
    try (left; assumption);
    try (rewrite Hgs in Hs; exact Hs);
    try exact Hs.
Qed.

Lemma index_ok_startup (net1 net2 : network) (t1 t2 : Z) (s : state) :
  startup net1 net2 t1 t2 = Ok s -> index_ok s.
Proof.
  unfold startup, index_ok. rewrite !fetch_all_games_spec. cbn [bind].
  destruct (pipeline_spec net1) as [|g gs].
  - cbn [bind]. intros H. injection H as <-.
    cbn [games game_index]. destruct (pipeline_spec net2); [now left|right].
    simpl. lia.
  - cbn [bind]. intros H. injection H as <-. right. simpl. lia.
Qed.


(* ================================================================== *)
(** ** More on the normalizer *)
(* ================================================================== *)

Lemma at_path_Key (v : pyval) (k : string) (rest : list hop) (x : pyval) :
  at_path v (Key k :: rest) = Some x ->
  exists items y, v = PDict items /\ lookup k items = Some y /\ at_path y rest = Some x.
Proof.
  destruct v; simpl; try discriminate.
  destruct (lookup k items) as [y|] eqn:E; [|discriminate]. eauto.
Qed.

Lemma at_path_Pos (v : pyval) (i : nat) (rest : list hop) (x : pyval) :
  at_path v (Pos i :: rest) = Some x ->
  exists items y, v = PList items /\ nth_error items i = Some y /\ at_path y rest = Some x.
Proof.
  destruct v; simpl; try discriminate.
  destruct (nth_error items i) as [y|] eqn:E; [|discriminate]. eauto.
Qed.

Lemma at_path_team (c : pyval) :
  at_path c [Key "team"; Key "abbreviation"] <> None ->
  exists items t h, c = PDict items /\ lookup "team" items = Some (PDict t)
                    /\ lookup "abbreviation" t = Some h.
Proof.
  intros H. destruct (at_path c [Key "team"; Key "abbreviation"]) as [h|] eqn:E;
    [|contradiction].
  apply at_path_Key in E as (items & y & -> & Hy & E).
  apply at_path_Key in E as (t & h' & -> & Hh & E).
  simpl in E. injection E as <-. exists items, t, h'. repeat split; assumption.
Qed.

(** X1. The normalizer accepts an event exactly when the league index
    is a configured one, [competitions[0].competitors] is a list of
    exactly two entries, each with a [team.abbreviation], and
    [status.type] is an object.  Nothing else is required: the scores,
    the status name, the short detail and the date may all be absent. *)
Theorem parse_game_accepts_iff :
  forall (event : pyval) (idx : nat),
    (exists g, parse_game event idx = Some g)
    <-> ((idx < List.length sport_leagues)%nat
         /\ exists c0 c1 ty,
              at_path event [Key "competitions"; Pos 0; Key "competitors"]
              = Some (PList [c0; c1])
              /\ at_path c0 [Key "team"; Key "abbreviation"] <> None
              /\ at_path c1 [Key "team"; Key "abbreviation"] <> None
              /\ at_path event [Key "status"; Key "type"] = Some (PDict ty)).
Proof.
  intros event idx. split.
  - intros [g H].
    apply parse_game_inv in H
      as (ev & more & ci & i0 & i1 & t0 & t1 & h & a & st & ty & lg
          & -> & Hcs & Hcomp & Ht0 & Hh & Ht1 & Ha & Hst & Hty & Hlg & _).
    split.
    + apply nth_error_Some. congruence.
    + exists (PDict i0), (PDict i1), ty. simpl.
      rewrite Hcs, Hst, Hty, Ht0, Ht1, Hh, Ha. simpl. rewrite Hcomp.
      repeat split; discriminate.
  - intros (Hidx & c0 & c1 & ty & Hc & H0 & H1 & Hs).
    apply at_path_Key in Hc as (ev & cs & -> & Hcs & Hc).
    apply at_path_Pos in Hc as (cl & c & -> & Hcl & Hc).
    apply at_path_Key in Hc as (ci & comps & -> & Hcomp & Hc).
    simpl in Hc. injection Hc as ->.
    apply at_path_team in H0 as (i0 & t0 & h & -> & Ht0 & Hh).
    apply at_path_team in H1 as (i1 & t1 & a & -> & Ht1 & Ha).
    apply at_path_Key in Hs as (ev' & st & Hev & Hst & Hs). injection Hev as <-.
    apply at_path_Key in Hs as (sti & ty' & -> & Hty & Hs).
    simpl in Hs. injection Hs as ->.
    destruct (nth_error sport_leagues idx) as [lg|] eqn:Hlg;
      [|apply nth_error_None in Hlg; lia].
    destruct cl as [|c' more]; [discriminate|]. simpl in Hcl. injection Hcl as ->.
    eexists. unfold parse_game, parse_game_body, list_index.
    cbn [getitem getindex get len bind nth_error].
    rewrite Hcs. cbn [bind getindex nth_error getitem].
    rewrite Hcomp. cbn [bind len List.length Nat.eqb negb getindex nth_error getitem get].
    rewrite Ht0. cbn [bind getitem]. rewrite Hh. cbn [bind getitem].
    rewrite Ht1. cbn [bind getitem]. rewrite Ha. cbn [bind getitem].
    rewrite Hst. cbn [bind getitem]. rewrite Hty. cbn [bind get].
    rewrite Hlg. cbn [bind catch]. reflexivity.
Qed.

(** The tag the normalizer puts on a game. *)
Lemma parse_game_tag (event : pyval) (idx : nat) (g : game) :
  parse_game event idx = Some g ->
  league_idx g = idx
  /\ (idx < List.length sport_leagues)%nat
  /\ exists name, nth_error sport_leagues idx = Some name /\ league g = upper name.
Proof.
  intros H.
  apply parse_game_inv in H
    as (ev & more & ci & i0 & i1 & t0 & t1 & h & a & st & ty & lg
        & _ & _ & _ & _ & _ & _ & _ & _ & _ & Hlg & ->).
  split; [reflexivity|]. split.
  - apply (proj1 (nth_error_Some sport_leagues idx)). congruence.
  - exists lg. split; [exact Hlg | reflexivity].
Qed.

(** X2. An accepted event keeps its identity: the home team is the
    abbreviation of the first competitor and the away team that of the
    second, unchanged; the league index is the one the pipeline passed
    in, a configured one; and the league name is the configured name in
    upper case. *)
Theorem parse_game_identity :
  forall (event : pyval) (idx : nat) (g : game),
    parse_game event idx = Some g ->
    at_path event [Key "competitions"; Pos 0; Key "competitors"; Pos 0;
                   Key "team"; Key "abbreviation"] = Some (home_team g)
    /\ at_path event [Key "competitions"; Pos 0; Key "competitors"; Pos 1;
                      Key "team"; Key "abbreviation"] = Some (away_team g)
    /\ league_idx g = idx
    /\ (idx < List.length sport_leagues)%nat
    /\ exists name, nth_error sport_leagues idx = Some name /\ league g = upper name.
Proof.
  intros event idx g H.
  apply parse_game_inv in H
    as (ev & more & ci & i0 & i1 & t0 & t1 & h & a & st & ty & lg
        & -> & Hcs & Hcomp & Ht0 & Hh & Ht1 & Ha & Hst & Hty & Hlg & ->).
  simpl. rewrite Hcs. simpl. rewrite Hcomp. simpl.
  rewrite Ht0, Ht1, Hh, Ha.
  repeat split.
  - apply (proj1 (nth_error_Some sport_leagues idx)). congruence.
  - exists lg. split; [exact Hlg | reflexivity].
Qed.

Lemma parse_game_identity_witness :
  league_idx (sample_game "STATUS_FINAL" "Final" "21" "17" (PStr "FINAL")) = 0%nat.
Proof.
  exact (proj1 (proj2 (proj2
    (parse_game_identity
       (sample_event "STATUS_FINAL" "Final"
          [("score", PStr "21")] [("score", PStr "17")])
       0%nat
       (sample_game "STATUS_FINAL" "Final" "21" "17" (PStr "FINAL"))
       eq_refl)))).
Defined.

Lemma eq_str_two (v : pyval) (a b : string) :
  a <> b -> eq_str v a && eq_str v b = false.
Proof.
  intros Hab. destruct (eq_str v a) eqn:Ea; [|reflexivity].
  destruct (eq_str v b) eqn:Eb; [|reflexivity].
  apply eq_str_true in Ea, Eb. congruence.
Qed.

(** X3. The three flags of an accepted event tell its status code:
    each is set exactly for its own code (an absent code counts as
    STATUS_SCHEDULED), so no two are set together; a final game reads
    "FINAL" and a live game reads the feed's short detail. *)
Theorem parse_game_flags :
  forall (event : pyval) (idx : nat) (g : game),
    parse_game event idx = Some g ->
    let code := or_default (PStr "STATUS_SCHEDULED") (status_code event) in
    (is_final g = true <-> code = PStr "STATUS_FINAL")
    /\ (is_live g = true <-> code = PStr "STATUS_IN_PROGRESS")
    /\ (is_scheduled g = true <-> code = PStr "STATUS_SCHEDULED")
    /\ is_final g && is_live g = false
    /\ is_final g && is_scheduled g = false
    /\ is_live g && is_scheduled g = false
    /\ (is_final g = true -> status g = PStr "FINAL")
    /\ (is_live g = true ->
        status g = or_default (PStr EmptyString) (short_detail event)).
Proof.
  intros event idx g H.
  apply parse_game_inv in H
    as (ev & more & ci & i0 & i1 & t0 & t1 & h & a & st & ty & lg
        & -> & Hcs & Hcomp & Ht0 & Hh & Ht1 & Ha & Hst & Hty & Hlg & ->).
  unfold status_code, short_detail. simpl.
  rewrite Hst, Hty, !option_eta.
  set (code := or_default (PStr "STATUS_SCHEDULED") (lookup "name" ty)).
  set (detail := or_default (PStr EmptyString) (lookup "shortDetail" ty)).
  destruct (display_status_of_cases code detail
              (or_default (PStr EmptyString) (lookup "date" ev)))
    as (Hf & Hp & _).
  repeat split; try apply eq_str_true;
    try (apply eq_str_two; discriminate).
  - intros E. apply Hf. now apply eq_str_true.
  - intros E. apply Hp. now apply eq_str_true.
Qed.

Lemma parse_game_flags_witness :
  is_live (sample_game "STATUS_IN_PROGRESS" "Q3 5:42" "7" "3" (PStr "Q3 5:42")) = true
  <-> PStr "STATUS_IN_PROGRESS" = PStr "STATUS_IN_PROGRESS".
Proof.
  exact (proj1 (proj2
    (parse_game_flags
       (sample_event "STATUS_IN_PROGRESS" "Q3 5:42"
          [("score", PStr "7")] [("score", PStr "3")])
       0%nat
       (sample_game "STATUS_IN_PROGRESS" "Q3 5:42" "7" "3" (PStr "Q3 5:42"))
       eq_refl))).
Defined.

(* ================================================================== *)
(** ** [get_league_index] *)
(* ================================================================== *)

Lemma index_from_bound (l : list string) (x : pyval) :
  forall i n, index_from i l x = Ok n -> (i <= n < i + List.length l)%nat.
Proof.
  induction l as [|y rest IH]; intros i n H; simpl in H; [discriminate|].
  destruct (eq_str x y).
  - injection H as <-. simpl. lia.
  - apply IH in H. simpl. lia.
Qed.

(** X4. [get_league_index] gives a configured league name its position
    in the configuration and anything else position 0, so its result is
    always a configured position.  The lookup is case-sensitive: for
    the upper-case league name stored in a game it answers 0, whatever
    the game's league. *)
Theorem get_league_index_spec :
  (forall i name, nth_error sport_leagues i = Some name ->
                  get_league_index (PStr name) = i)
  /\ (forall x, (forall name, In name sport_leagues -> x <> PStr name) ->
                get_league_index x = 0%nat)
  /\ (forall x, (get_league_index x < List.length sport_leagues)%nat)
  /\ (forall event idx g,
        parse_game event idx = Some g ->
        get_league_index (PStr (league g)) = 0%nat).
Proof.
  split; [|split; [|split]].
  - intros i name H.
    destruct i as [|[|[|[|i]]]]; simpl in H; try (injection H as <-; reflexivity).
    destruct i; discriminate.
  - intros x H. unfold get_league_index. simpl.
    repeat match goal with
      | |- context [eq_str x ?lit] =>
          let E := fresh "E" in
          destruct (eq_str x lit) eqn:E;
          [ apply eq_str_true in E; exfalso; apply (H lit); [simpl; tauto | exact E] | ]
      end.
    reflexivity.
  - intros x. unfold get_league_index.
    destruct (index_from 0 sport_leagues x) as [n|e] eqn:E; simpl.
    + apply index_from_bound in E. simpl in E. lia.
    + lia.
  - intros event idx g H.
    apply parse_game_inv in H
      as (ev & more & ci & i0 & i1 & t0 & t1 & h & a & st & ty & lg
          & _ & _ & _ & _ & _ & _ & _ & _ & _ & Hlg & ->).
    cbn [league].
    destruct idx as [|[|[|[|idx]]]]; simpl in Hlg; try (injection Hlg as <-; reflexivity).
    destruct idx; discriminate.
Qed.

(* ================================================================== *)
(** ** More on the pipeline *)
(* ================================================================== *)

Lemma StronglySorted_app {A} (R : A -> A -> Prop) (l1 l2 : list A) :
  StronglySorted R l1 -> StronglySorted R l2 ->
  (forall a b, In a l1 -> In b l2 -> R a b) ->
  StronglySorted R (l1 ++ l2)%list.
Proof.
  induction 1 as [|x l1 Hs IH Hx]; intros H2 Hc; [exact H2|].
  simpl. constructor.
  - apply IH; [exact H2|]. intros a b Ha Hb. apply Hc; [now right | exact Hb].
  - apply Forall_app. split; [exact Hx|].
    apply Forall_forall. intros b Hb. apply Hc; [now left | exact Hb].
Qed.

Lemma accepted_league_idx (i : nat) (events : list pyval) (g : game) :
  In g (accepted i events) ->
  league_idx g = i
  /\ exists name, nth_error sport_leagues i = Some name /\ league g = upper name.
Proof.
  unfold accepted. rewrite in_flat_map. intros (ev & _ & Hg).
  destruct (parse_game ev i) as [g'|] eqn:E; [|destruct Hg].
  destruct Hg as [<-|[]].
  destruct (parse_game_tag ev i g' E) as (Hi & _ & Hn). tauto.
Qed.

Lemma league_games_league_idx (nw : network) (item : nat * string) (g : game) :
  In g (league_games nw item) ->
  league_idx g = fst item
  /\ exists name, nth_error sport_leagues (fst item) = Some name
                  /\ league g = upper name.
Proof.
  unfold league_games. destruct (request_events (nw (snd item))); [|intros []].
  apply accepted_league_idx.
Qed.

Lemma blocks_sorted (nw : network) (items : list (nat * string)) :
  StronglySorted (fun a b => (fst a <= fst b)%nat) items ->
  StronglySorted (fun a b => (league_idx a <= league_idx b)%nat)
                 (List.concat (map (league_games nw) items)).
Proof.
  induction 1 as [|item rest Hs IH Hi]; simpl; [constructor|].
  apply StronglySorted_app; [|exact IH|].
  - assert (Hall : forall g, In g (league_games nw item) -> league_idx g = fst item)
      by (intros g Hg; apply (league_games_league_idx nw item g Hg)).
    induction (league_games nw item) as [|g gs IHg]; constructor.
    + apply IHg. intros g' Hg'. apply Hall. now right.
    + apply Forall_forall. intros g' Hg'.
      rewrite (Hall g (or_introl eq_refl)), (Hall g' (or_intror Hg')). lia.
  - intros a b Ha Hb. apply in_concat in Hb as (blk & Hblk & Hb).
    apply in_map_iff in Hblk as (item' & <- & Hitem').
    rewrite Forall_forall in Hi. specialize (Hi item' Hitem').
    rewrite (proj1 (league_games_league_idx nw item a Ha)).
    rewrite (proj1 (league_games_league_idx nw item' b Hb)). exact Hi.
Qed.

Lemma enumerate_urls_sorted :
  StronglySorted (fun a b : nat * string => (fst a <= fst b)%nat)
                 (enumerate SPORT_URLS).
Proof. repeat constructor. Qed.

Lemma pipeline_spec_tagged (nw : network) :
  Forall (fun g =>
            (league_idx g < List.length sport_leagues)%nat
            /\ exists name, nth_error sport_leagues (league_idx g) = Some name
                            /\ league g = upper name) (pipeline_spec nw).
Proof.
  apply Forall_forall. intros g Hg.
  apply in_concat in Hg as (blk & Hblk & Hg).
  apply in_map_iff in Hblk as (item & <- & Hitem).
  destruct (league_games_league_idx nw item g Hg) as (Hi & name & Hn & Hl).
  rewrite Hi. split.
  - apply nth_error_Some. congruence.
  - exists name. tauto.
Qed.

(** X5. The list the pipeline returns is grouped by league in the
    configured order: league indices never decrease along it, each is a
    configured index, and each game carries the upper-case name of its
    league. *)
Theorem fetch_all_games_grouped :
  forall (nw : network) (result : list game),
    fetch_all_games nw = Ok result ->
    StronglySorted (fun a b => (league_idx a <= league_idx b)%nat) result
    /\ Forall (fun g =>
                 (league_idx g < List.length sport_leagues)%nat
                 /\ exists name, nth_error sport_leagues (league_idx g) = Some name
                                 /\ league g = upper name) result.
Proof.
  intros nw result H. rewrite fetch_all_games_spec in H. injection H as <-.
  split.
  - apply blocks_sorted, enumerate_urls_sorted.
  - apply pipeline_spec_tagged.
Qed.

Lemma fetch_all_games_grouped_witness :
  StronglySorted (fun a b => (league_idx a <= league_idx b)%nat)
                 [game_A; game_B; game_C].
Proof.
  exact (proj1 (fetch_all_games_grouped mixed_network [game_A; game_B; game_C]
                  eq_refl)).
Defined.

Lemma chars_length (s : string) : List.length (chars s) = String.length s.
Proof. induction s; simpl; congruence. Qed.

Lemma request_events_io_spec (feed : league_feed) :
  request_events_io feed
  = match request_events feed with
    | Ok l => Ok (List.length l, l)
    | Raise e => Raise e
    end.
Proof.
  unfold request_events_io, request_events.
  destruct feed as [e|data]; [reflexivity|]. cbn [bind].
  destruct (get data "events" (PList [])) as [events|e]; [|reflexivity].
  cbn [bind].
  destruct events; try reflexivity; simpl.
  - now rewrite chars_length.
  - now rewrite length_map.
Qed.

Lemma parse_game_io_fst (event : pyval) (i : nat) :
  fst (parse_game_io event i) = parse_game event i.
Proof.
  unfold parse_game_io, parse_game, catch.
  now destruct (parse_game_body event i).
Qed.

Lemma fold_event_step_io (i : nat) (events : list pyval) :
  forall acc tr,
    fold_left (event_step_io i) events (acc, tr)
    = ((acc ++ accepted i events)%list, (tr ++ parse_lines i events)%list).
Proof.
  induction events as [|ev rest IH]; intros acc tr; simpl.
  - now rewrite !app_nil_r.
  - pose proof (parse_game_io_fst ev i) as Hf.
    destruct (parse_game_io ev i) as [r t] eqn:E. simpl in Hf. subst r.
    rewrite IH. simpl.
    destruct (parse_game ev i); simpl; now rewrite <- !app_assoc.
Qed.

Lemma league_step_io_spec (nw : network) (acc : list game) (tr : list effect)
      (item : nat * string) :
  (fst item < List.length sport_leagues)%nat ->
  league_step_io nw (acc, tr) item
  = Ok ((acc ++ league_games nw item)%list, (tr ++ league_effects nw item)%list).
Proof.
  destruct item as [i url]. cbn [fst]. intros Hi.
  unfold league_step_io, list_index, league_effects, league_games. cbn [fst snd].
  destruct (nth_error sport_leagues i) as [name|] eqn:E;
    [|apply nth_error_None in E; lia].
  rewrite (nth_error_nth _ _ EmptyString E). cbn [bind].
  rewrite request_events_io_spec.
  destruct (request_events (nw url)) as [events|e].
  - rewrite fold_event_step_io. now rewrite <- !app_assoc.
  - now rewrite app_nil_r, <- !app_assoc.
Qed.

Lemma leagues_loop_io_spec (nw : network) (items : list (nat * string)) :
  Forall (fun item => (fst item < List.length sport_leagues)%nat) items ->
  forall acc tr,
    leagues_loop_io nw items (acc, tr)
    = Ok ((acc ++ List.concat (map (league_games nw) items))%list,
          (tr ++ List.concat (map (league_effects nw) items))%list).
Proof.
  induction 1 as [|item rest Hi _ IH]; intros acc tr; cbn [leagues_loop_io map List.concat].
  - now rewrite !app_nil_r.
  - rewrite league_step_io_spec by assumption. cbn [bind].
    rewrite IH. now rewrite <- !app_assoc.
Qed.

Lemma fetch_all_games_io_eval (nw : network) :
  fetch_all_games_io nw
  = Ok (pipeline_spec nw,
        (List.concat (map (league_effects nw) (enumerate SPORT_URLS))
         ++ [IoPixel 0 0 0; IoPrint (LnTotal (List.length (pipeline_spec nw)))])%list).
Proof.
  unfold fetch_all_games_io.
  rewrite (leagues_loop_io_spec nw _ enumerate_urls_in_range). reflexivity.
Qed.

Lemma parse_lines_quiet (p : effect -> bool) (i : nat) (events : list pyval) :
  (forall l, p (IoPrint l) = false) -> filter p (parse_lines i events) = [].
Proof.
  intros Hp. unfold parse_lines.
  induction events as [|ev rest IH]; [reflexivity|].
  simpl. rewrite filter_app, IH, app_nil_r.
  unfold parse_game_io. destruct (parse_game_body ev i); simpl; [reflexivity|].
  now rewrite Hp.
Qed.

Lemma league_effects_pixel (nw : network) (item : nat * string) :
  filter is_IoPixel (league_effects nw item) = [IoPixel 0 0 255].
Proof.
  unfold league_effects. cbn [app filter is_IoPixel].
  destruct (request_events_io (nw (snd item))) as [[n events]|e]; [|reflexivity].
  cbn [app filter is_IoPixel].
  now rewrite filter_app, parse_lines_quiet.
Qed.

Lemma league_effects_gc (nw : network) (item : nat * string) :
  filter is_IoGc (league_effects nw item)
  = if league_ok nw item then [IoGc] else [].
Proof.
  unfold league_effects, league_ok. cbn [app filter is_IoGc].
  rewrite request_events_io_spec.
  destruct (request_events (nw (snd item))) as [events|e]; [|reflexivity].
  cbn [app filter is_IoGc].
  now rewrite filter_app, parse_lines_quiet.
Qed.

Lemma parse_lines_found (i : nat) (events : list pyval) :
  forall rest, found_total (parse_lines i events ++ rest)%list = found_total rest.
Proof.
  unfold parse_lines. induction events as [|ev more IH]; intros rest; [reflexivity|].
  simpl. rewrite <- app_assoc.
  unfold parse_game_io at 1. destruct (parse_game_body ev i); simpl; apply IH.
Qed.

Lemma league_effects_found (nw : network) (item : nat * string) (rest : list effect) :
  found_total (league_effects nw item ++ rest)%list
  = (events_in nw item + found_total rest)%nat.
Proof.
  unfold league_effects, events_in. rewrite request_events_io_spec.
  destruct (request_events (nw (snd item))) as [events|e]; [|reflexivity].
  cbn [app found_total]. rewrite <- app_assoc, parse_lines_found. reflexivity.
Qed.

Lemma accepted_length_le (i : nat) (events : list pyval) :
  (List.length (accepted i events) <= List.length events)%nat.
Proof.
  induction events as [|ev rest IH]; [simpl; lia|].
  simpl. rewrite length_app. destruct (parse_game ev i); simpl; lia.
Qed.

Lemma league_games_length_le (nw : network) (item : nat * string) :
  (List.length (league_games nw item) <= events_in nw item)%nat.
Proof.
  unfold league_games, events_in.
  destruct (request_events (nw (snd item))); [apply accepted_length_le | simpl; lia].
Qed.

(** X6. The indicator light: whatever the network does, a pipeline run
    sets the light blue once for each league, in turn, and switches it
    off once, after the last league; switching off is the last thing it
    does before the closing console line. *)
Theorem fetch_all_games_light :
  forall nw : network,
    exists result tr pre,
      fetch_all_games_io nw = Ok (result, tr)
      /\ fetch_all_games nw = Ok result
      /\ filter is_IoPixel tr
         = (repeat (IoPixel 0 0 255) (List.length SPORT_URLS) ++ [IoPixel 0 0 0])%list
      /\ tr = (pre ++ [IoPixel 0 0 0; IoPrint (LnTotal (List.length result))])%list.
Proof.
  intros nw. rewrite fetch_all_games_io_eval, fetch_all_games_spec.
  eexists _, _, _. split; [reflexivity|]. split; [reflexivity|].
  split; [|reflexivity].
  rewrite filter_app. cbn [filter is_IoPixel].
  f_equal.
  change (enumerate SPORT_URLS)
    with [(0%nat, nth 0 SPORT_URLS EmptyString); (1%nat, nth 1 SPORT_URLS EmptyString);
          (2%nat, nth 2 SPORT_URLS EmptyString); (3%nat, nth 3 SPORT_URLS EmptyString)].
  cbn [map List.concat].
  rewrite !filter_app, !league_effects_pixel. reflexivity.
Qed.

(** X7. Garbage collection inside the pipeline: [gc.collect()] runs
    once for each league whose request and decoding succeed, and not at
    all for a league that raises, whose turn ends in [continue]. *)
Theorem fetch_all_games_collections :
  forall nw : network,
    exists result tr,
      fetch_all_games_io nw = Ok (result, tr)
      /\ List.length (filter is_IoGc tr)
         = List.length (filter (league_ok nw) (enumerate SPORT_URLS))
      /\ ((forall item, In item (enumerate SPORT_URLS) -> league_ok nw item = false) ->
          filter is_IoGc tr = []).
Proof.
  intros nw. rewrite fetch_all_games_io_eval.
  eexists _, _. split; [reflexivity|].
  rewrite filter_app. cbn [filter is_IoGc]. rewrite app_nil_r.
  assert (Hlen : forall items,
            List.length (filter is_IoGc (List.concat (map (league_effects nw) items)))
            = List.length (filter (league_ok nw) items)).
  { induction items as [|item rest IH]; [reflexivity|].
    cbn [map List.concat filter]. rewrite filter_app, length_app, league_effects_gc, IH.
    destruct (league_ok nw item); reflexivity. }
  split; [apply Hlen|].
  intros Hall.
  apply length_zero_iff_nil. rewrite Hlen.
  apply length_zero_iff_nil.
  induction (enumerate SPORT_URLS) as [|item rest IH]; [reflexivity|].
  cbn [filter]. rewrite (Hall item (or_introl eq_refl)).
  apply IH. intros item' Hin. apply Hall. now right.
Qed.

(** X8. The console lines count truthfully: the closing line reports
    the length of the returned list, the progress lines add up to the
    number of events the feeds held, and the list never holds more
    games than that. *)
Theorem fetch_all_games_counts :
  forall nw : network,
    exists result tr pre,
      fetch_all_games_io nw = Ok (result, tr)
      /\ tr = (pre ++ [IoPrint (LnTotal (List.length result))])%list
      /\ found_total tr = list_sum (map (events_in nw) (enumerate SPORT_URLS))
      /\ (List.length result <= found_total tr)%nat.
Proof.
  intros nw. rewrite fetch_all_games_io_eval.
  eexists _, _, (_ ++ [IoPixel 0 0 0])%list.
  split; [reflexivity|]. split; [now rewrite <- app_assoc|].
  assert (Hsum : forall items rest,
            found_total (List.concat (map (league_effects nw) items) ++ rest)%list
            = (list_sum (map (events_in nw) items) + found_total rest)%nat).
  { induction items as [|item more IH]; intros rest; [reflexivity|].
    cbn [map List.concat]. rewrite <- app_assoc, league_effects_found, IH.
    simpl list_sum. lia. }
  rewrite Hsum. cbn [found_total]. rewrite Nat.add_0_r. split; [reflexivity|].
  unfold pipeline_spec.
  induction (enumerate SPORT_URLS) as [|item more IH]; [simpl; lia|].
  cbn [map List.concat]. simpl list_sum. rewrite length_app.
  pose proof (league_games_length_le nw item). lia.
Qed.

(* ================================================================== *)
(** ** The screens *)
(* ================================================================== *)

(** A game screen, evaluated: the logos that load, then five labels. *)
Lemma build_game_display_eval (fs : files) (g : game) :
  build_game_display fs g
  = match nth_error logo_folders (league_idx g) with
    | None => Raise IndexError
    | Some folder =>
        Ok (logo_grid fs (logo_path folder (home_team g)) 4 4
            ++ logo_grid fs (logo_path folder (away_team g)) 92 4
            ++ [Label 0xFFFF00 (PStr (league g)) (1 # 2, 0%Q) (64, 2);
                Label font_color (home_team g) (1 # 2, 0%Q) (20, 38);
                Label font_color (away_team g) (1 # 2, 0%Q) (108, 38);
                Label (if is_scheduled g then font_color
                       else if is_live g then 0x00FF00 else font_color)
                      (PStr (if is_scheduled g then "VS"
                             else home_score g ++ " - " ++ away_score g))
                      (1 # 2, 1 # 2) (64, 24);
                Label (if is_live g then 0xFF0000 else font_color)
                      (status g) (1 # 2, 1%Q) (64, 62)])%list
    end.
Proof.
  unfold build_game_display, list_index, load_logo, logo_grid.
  destruct (nth_error logo_folders (league_idx g)) as [folder|]; [|reflexivity].
  cbn [bind].
  destruct (fs (logo_path folder (home_team g)));
    destruct (fs (logo_path folder (away_team g)));
    destruct (is_scheduled g); reflexivity.
Qed.

Lemma labels_logo_grid (fs : files) (path : string) (x y : Z) (rest : list element) :
  labels (logo_grid fs path x y ++ rest)%list = labels rest.
Proof. unfold logo_grid, labels. now destruct (fs path). Qed.


(** X10. A logo that does not load costs only itself.  The group of a
    game screen is the home logo if its file loads, then the away logo
    if its file loads, then five labels; the labels do not depend on
    the files at all. *)
Theorem build_game_display_logos :
  forall (fs : files) (g : game) (group : list element),
    build_game_display fs g = Ok group ->
    exists folder,
      nth_error logo_folders (league_idx g) = Some folder
      /\ group = (logo_grid fs (logo_path folder (home_team g)) 4 4
                  ++ logo_grid fs (logo_path folder (away_team g)) 92 4
                  ++ labels group)%list
      /\ List.length (labels group) = 5%nat
      /\ (forall fs' group',
            build_game_display fs' g = Ok group' -> labels group' = labels group).
Proof.
  intros fs g group. rewrite build_game_display_eval.
  destruct (nth_error logo_folders (league_idx g)) as [folder|] eqn:E; [|discriminate].
  intros H. injection H as <-. exists folder. split; [reflexivity|].
  rewrite !labels_logo_grid. cbn [labels filter is_Label].
  split; [reflexivity|]. split; [reflexivity|].
  intros fs' group'. rewrite build_game_display_eval, E.
  intros H. injection H as <-. now rewrite !labels_logo_grid.
Qed.

Lemma build_game_display_logos_witness :
  exists folder,
    nth_error logo_folders 0 = Some folder
    /\ [TileGrid "/team0_logos/BUF.bmp" 92 4;
        Label 0xFFFF00 (PStr "NFL") (1 # 2, 0%Q) (64, 2);
        Label font_color (PStr "KC") (1 # 2, 0%Q) (20, 38);
        Label font_color (PStr "BUF") (1 # 2, 0%Q) (108, 38);
        Label 0x00FF00 (PStr "7 - 3") (1 # 2, 1 # 2) (64, 24);
        Label 0xFF0000 (PStr "Q3 5:42") (1 # 2, 1%Q) (64, 62)]
       = (logo_grid (fun p => if String.eqb p "/team0_logos/KC.bmp"
                              then Some OSError else None)
                    (logo_path folder (home_team game_B)) 4 4
          ++ logo_grid (fun p => if String.eqb p "/team0_logos/KC.bmp"
                                 then Some OSError else None)
                       (logo_path folder (away_team game_B)) 92 4
          ++ labels [TileGrid "/team0_logos/BUF.bmp" 92 4;
                     Label 0xFFFF00 (PStr "NFL") (1 # 2, 0%Q) (64, 2);
                     Label font_color (PStr "KC") (1 # 2, 0%Q) (20, 38);
                     Label font_color (PStr "BUF") (1 # 2, 0%Q) (108, 38);
                     Label 0x00FF00 (PStr "7 - 3") (1 # 2, 1 # 2) (64, 24);
                     Label 0xFF0000 (PStr "Q3 5:42") (1 # 2, 1%Q) (64, 62)])%list.
Proof.
  destruct (build_game_display_logos
              (fun p => if String.eqb p "/team0_logos/KC.bmp" then Some OSError else None)
              game_B _ eq_refl) as (folder & H1 & H2 & _).
  exists folder. exact (conj H1 H2).
Defined.

(** X11. What the panel shows for an accepted event, by status code.
    A scheduled game (or one with no code) shows "VS" in place of the
    scores and its converted kick-off time, both in the font colour; a
    game in progress shows the two scores in green and the feed's short
    detail in red; any other game shows the two scores and its status in
    the font colour.  A missing score shows as 0. *)
Theorem game_screen_of_event :
  forall (fs : files) (event : pyval) (idx : nat) (g : game) (group : list element),
    parse_game event idx = Some g ->
    build_game_display fs g = Ok group ->
    let code := or_default (PStr "STATUS_SCHEDULED") (status_code event) in
    let scores :=
      str (or_default (PStr "0") (score_field event 0)) ++ " - "
      ++ str (or_default (PStr "0") (score_field event 1)) in
    (code = PStr "STATUS_SCHEDULED" ->
       score_label group
       = Some (Label font_color (PStr "VS") (1 # 2, 1 # 2) (64, 24))
       /\ status_label group
          = Some (Label font_color
                        (PStr (convert_date_format
                                 (or_default (PStr EmptyString) (event_date event))
                                 timezone_offset))
                        (1 # 2, 1%Q) (64, 62)))
    /\ (code = PStr "STATUS_IN_PROGRESS" ->
        score_label group
        = Some (Label 0x00FF00 (PStr scores) (1 # 2, 1 # 2) (64, 24))
        /\ status_label group
           = Some (Label 0xFF0000
                         (or_default (PStr EmptyString) (short_detail event))
                         (1 # 2, 1%Q) (64, 62)))
    /\ (code <> PStr "STATUS_SCHEDULED" -> code <> PStr "STATUS_IN_PROGRESS" ->
        score_label group
        = Some (Label font_color (PStr scores) (1 # 2, 1 # 2) (64, 24))
        /\ status_label group
           = Some (Label font_color (status g) (1 # 2, 1%Q) (64, 62))).
Proof.
  intros fs event idx g group Hp Hb.
  apply parse_game_inv in Hp
    as (ev & more & ci & i0 & i1 & t0 & t1 & h & a & st & ty & lg
        & -> & Hcs & Hcomp & Ht0 & Hh & Ht1 & Ha & Hst & Hty & Hlg & ->).
  rewrite build_game_display_eval in Hb.
  cbn [league_idx league home_team away_team home_score away_score status
       is_final is_live is_scheduled] in Hb.
  destruct (nth_error logo_folders idx); [|discriminate].
  injection Hb as <-.
  unfold score_label, status_label.
  rewrite !labels_logo_grid. cbn [labels filter is_Label nth_error status].
  unfold status_code, short_detail, event_date, score_field. simpl at_path.
  rewrite Hcs, Hst, Hty. simpl. rewrite Hcomp. simpl. rewrite !option_eta.
  set (code := or_default (PStr "STATUS_SCHEDULED") (lookup "name" ty)).
  split; [|split].
  - intros Hc. rewrite Hc. split; reflexivity.
  - intros Hc. rewrite Hc. split; reflexivity.
  - intros H1 H2.
    assert (E1 : eq_str code "STATUS_SCHEDULED" = false).
    { destruct (eq_str code "STATUS_SCHEDULED") eqn:E; [|reflexivity].
      apply eq_str_true in E. contradiction. }
    assert (E2 : eq_str code "STATUS_IN_PROGRESS" = false).
    { destruct (eq_str code "STATUS_IN_PROGRESS") eqn:E; [|reflexivity].
      apply eq_str_true in E. contradiction. }
    rewrite E1, E2. split; reflexivity.
Qed.

Lemma game_screen_of_event_witness :
  score_label
    [Label 0xFFFF00 (PStr "NFL") (1 # 2, 0%Q) (64, 2);
     Label font_color (PStr "KC") (1 # 2, 0%Q) (20, 38);
     Label font_color (PStr "BUF") (1 # 2, 0%Q) (108, 38);
     Label 0x00FF00 (PStr "7 - 3") (1 # 2, 1 # 2) (64, 24);
     Label 0xFF0000 (PStr "Q3 5:42") (1 # 2, 1%Q) (64, 62)]
  = Some (Label 0x00FF00 (PStr "7 - 3") (1 # 2, 1 # 2) (64, 24)).
Proof.
  exact (proj1 (proj1 (proj2
    (game_screen_of_event
       (fun _ => Some OSError)
       (sample_event "STATUS_IN_PROGRESS" "Q3 5:42"
          [("score", PStr "7")] [("score", PStr "3")])
       0%nat game_B _ eq_refl eq_refl)) eq_refl)).
Defined.

Lemma label_on_panel (c : Z) (t : pyval) (a : Q * Q) (x y : Z) :
  0 <= x < 128 -> 0 <= y < 64 -> on_panel (Label c t a (x, y)).
Proof. intros Hx Hy. unfold on_panel. split; assumption. Qed.

(** X12. Every element of every screen the program builds (the
    start-up screen, the no-games screen, and the screen of any game,
    whichever logos load) is placed at a pixel of the 128 by 64
    panel. *)
Theorem screens_on_panel :
  forall (fs : files) (scr : screen) (group : list element),
    group_of fs scr = Ok group -> Forall on_panel group.
Proof.
  intros fs scr group H. destruct scr as [| |g]; simpl in H.
  - injection H as <-. repeat constructor; vm_compute; intuition discriminate.
  - injection H as <-. repeat constructor; vm_compute; intuition discriminate.
  - rewrite build_game_display_eval in H.
    destruct (nth_error logo_folders (league_idx g)) as [folder|]; [|discriminate].
    injection H as <-.
    repeat (apply Forall_app; split);
      unfold logo_grid;
      repeat match goal with
        | |- context [fs ?p] => destruct (fs p)
        end;
      repeat constructor; vm_compute; intuition discriminate.
Qed.

Lemma screens_on_panel_witness : Forall on_panel no_games_group.
Proof. exact (screens_on_panel (fun _ => None) ScreenNoGames _ eq_refl). Defined.

(* ================================================================== *)
(** ** The main program over time *)
(* ================================================================== *)

Lemma pipeline_spec_folders (nw : network) :
  Forall (fun g => (league_idx g < List.length logo_folders)%nat) (pipeline_spec nw).
Proof.
  eapply Forall_impl; [|apply pipeline_spec_tagged].
  intros g [H _]. exact H.
Qed.

Lemma globals_ok_startup (net1 net2 : network) (t1 t2 : Z) (s : state) :
  startup net1 net2 t1 t2 = Ok s -> globals_ok s.
Proof.
  intros H. split; [exact (index_ok_startup _ _ _ _ _ H)|].
  unfold startup in H. rewrite !fetch_all_games_spec in H. cbn [bind] in H.
  pose proof (pipeline_spec_folders net1) as F1.
  pose proof (pipeline_spec_folders net2) as F2.
  destruct (pipeline_spec net1) as [|g gs]; cbn [bind] in H; injection H as <-;
    cbn [games root_group]; split; try assumption; try reflexivity.
  discriminate.
Qed.

Lemma globals_ok_iteration (e : env) (s s' : state) (t : list action) :
  globals_ok s -> iteration e s = (Running s', t) -> globals_ok s'.
Proof.
  intros (Hi & Hf & Hn) H.
  split; [exact (index_ok_iteration e s s' t Hi H)|].
  pose proof (pipeline_spec_folders (net e)) as Fp.
  revert H.
  case_pass e s; intros H; try discriminate H; injection H as <- <-;
    cbn [games fetch_clock display_clock game_index root_group
         set_display_clock set_root_group];
    try rewrite Hgs in *;
    (split; [ try assumption | try (intros D; discriminate D); try tauto ]).
Qed.

Lemma reachable_ok (s : state) : reachable s -> globals_ok s.
Proof.
  induction 1 as [net1 net2 t1 t2 s H | e s s' t _ IH H].
  - exact (globals_ok_startup _ _ _ _ _ H).
  - exact (globals_ok_iteration _ _ _ _ IH H).
Qed.



Lemma iteration_no_reset (e : env) (s s' : state) (t : list action) :
  iteration e s = (Running s', t) -> count is_Reset t = 0%nat.
Proof.
  unfold iteration. destruct (loop_body e s) as [[r s1] t1] eqn:E.
  destruct r; intros H; [|discriminate].
  injection H as _ <-. exact (loop_body_no_reset _ _ _ _ _ E).
Qed.

(** X14. A run resets the device at most once, and does nothing after
    it: the actions of a run are free of resets, or they are a
    reset-free sequence followed by one reset. *)
Theorem run_resets_at_most_once :
  forall (envs : list env) (s : state),
    exists pre,
      count is_Reset pre = 0%nat
      /\ (run envs s = pre \/ run envs s = (pre ++ [Reset])%list).
Proof.
  induction envs as [|e rest IH]; intros s.
  - exists []. split; [reflexivity | now left].
  - cbn [run]. destruct (iteration e s) as [o t] eqn:E.
    destruct o as [s'|].
    + destruct (IH s') as (pre & Hpre & Hrun).
      exists (t ++ pre)%list. split.
      * rewrite count_app, Hpre, (iteration_no_reset _ _ _ _ E). reflexivity.
      * destruct Hrun as [-> | ->]; [now left | right; now rewrite app_assoc].
    + unfold iteration in E. destruct (loop_body e s) as [[r s1] t1] eqn:El.
      destruct r as [u|x]; [discriminate|]. injection E as <-.
      destruct (recover_ends_in_reset x) as (pre & -> & Hpre).
      exists (t1 ++ pre)%list. split.
      * rewrite count_app, Hpre, (loop_body_no_reset _ _ _ _ _ El). reflexivity.
      * right. now rewrite app_assoc.
Qed.

(** X15. A pass that completes does bounded work and then waits: at
    most one pipeline run and at most one screen, then exactly one
    sleep, which is its last action: five seconds after a refresh that
    found no game, a tenth of a second otherwise.  The pipeline runs in
    the pass exactly when the fetch timer fires. *)
Theorem pass_ends_in_sleep :
  forall (e : env) (s s' : state) (t : list action),
    iteration e s = (Running s', t) ->
    exists pre ms,
      t = (pre ++ [Sleep ms])%list
      /\ count is_Sleep pre = 0%nat
      /\ (ms = 5000 /\ fetch_fires e s = true /\ games s' = []
          \/ ms = 100 /\ (fetch_fires e s = true -> games s' <> []))
      /\ count is_Fetch t = (if fetch_fires e s then 1 else 0)%nat
      /\ (count is_Show t <= 1)%nat.
Proof.
  intros e s s' t. unfold fetch_fires.
  case_pass e s; intros H; try discriminate H; injection H as <- <-;
    cbn [games fetch_clock display_clock game_index root_group
         set_display_clock set_root_group app];
    match goal with
    | |- exists pre ms, ?t = _ /\ _ => exists (removelast t)
    end;
    eexists; (split; [cbn; reflexivity|]);
    (split; [reflexivity|]);
    (split; [ first [ left; repeat split; reflexivity
                    | right; split; [reflexivity | intros; try discriminate; congruence] ] | ]);
    split; cbn; try reflexivity; lia.
Qed.

Lemma pass_ends_in_sleep_witness :
  exists pre ms,
    [Print LineRefreshing; GcCollect; Fetch; Show ScreenNoGames; Sleep 5000]
    = (pre ++ [Sleep ms])%list
    /\ count is_Sleep pre = 0%nat.
Proof.
  destruct (pass_ends_in_sleep (pass_offline 300000) mid_rotation _ _ eq_refl)
    as (pre & ms & H1 & H2 & _).
  exists pre, ms. exact (conj H1 H2).
Defined.

(** X16. A game put on the panel in a pass that completes is a game of
    the list installed when the pass ends, and it is what the panel
    shows afterwards.  When the pass also refreshed the list, the game
    shown is the first game of the new list. *)
Theorem shown_game_is_installed :
  forall (e : env) (s s' : state) (t : list action) (g : game),
    iteration e s = (Running s', t) ->
    In (Show (ScreenGame g)) t ->
    In g (games s')
    /\ root_group s' = ScreenGame g
    /\ (fetch_fires e s = false -> nth_error (games s) (game_index s) = Some g)
    /\ (fetch_fires e s = true ->
        fetch_all_games (net e) = Ok (games s')
        /\ nth_error (games s') 0 = Some g).
Proof.
  intros e s s' t g. unfold fetch_fires. rewrite fetch_all_games_spec.
  case_pass e s; intros H; try discriminate H; injection H as <- <-;
    cbn [games fetch_clock display_clock game_index root_group
         set_display_clock set_root_group app In];
    intros Hin;
    repeat match type of Hin with
      | _ \/ _ => destruct Hin as [Hin|Hin]
      end;
    try discriminate Hin; try contradiction;
    injection Hin as ->;
    try (cbn [nth_error] in Hnth; injection Hnth as ->);
    repeat split; try (intros D; discriminate D); try congruence;
    try (now left);
    try match goal with
        | Hn : nth_error ?l _ = Some ?x |- _ => exact (nth_error_In l _ Hn)
        end.
Qed.

Lemma shown_game_is_installed_witness :
  In game_A [game_A; game_B; game_C]
  /\ root_group (mk_state [game_A; game_B; game_C] 300000 5000 1 (ScreenGame game_A))
     = ScreenGame game_A.
Proof.
  destruct (shown_game_is_installed
              (mk_env 300000 mixed_network None) mid_rotation
              (mk_state [game_A; game_B; game_C] 300000 5000 1 (ScreenGame game_A))
              [Print LineRefreshing; GcCollect; Fetch;
               Print (LineShowing game_A); GcCollect; Show (ScreenGame game_A);
               Sleep 100]
              game_A eq_refl)
    as (H1 & H2 & _).
  - simpl. tauto.
  - exact (conj H1 H2).
Defined.

(** X18. With a working panel a pass always completes: from any state
    the program reaches, whatever the network answers or fails to
    answer, the pass ends with the loop running, not with a reset. *)
Theorem pass_completes_when_panel_works :
  forall (e : env) (s : state),
    reachable s ->
    panel_fault e = None ->
    exists s' t,
      iteration e s = (Running s', t)
      /\ reachable s'
      /\ count is_Reset t = 0%nat.
Proof.
  intros e s Hr Hpanel.
  destruct (reachable_ok s Hr) as (Hi & _ & _).
  assert (H : exists s' t, iteration e s = (Running s', t)).
  { unfold index_ok in Hi.
    case_pass e s; try congruence; try (eexists _, _; reflexivity).
    exfalso. try rewrite Hgs in Hi.
    destruct Hi as [Hi|Hi]; [discriminate Hi|].
    apply nth_error_None in Hnth. lia. }
  destruct H as (s' & t & H). exists s', t.
  split; [exact H|]. split.
  - exact (reach_pass e s s' t Hr H).
  - exact (iteration_no_reset _ _ _ _ H).
Qed.

Lemma pass_completes_when_panel_works_witness :
  exists s' t,
    iteration (pass_offline 300000)
              (mk_state [game_A; game_B; game_C] 0 7 0 ScreenStartup)
    = (Running s', t)
    /\ count is_Reset t = 0%nat.
Proof.
  destruct (pass_completes_when_panel_works
              (pass_offline 300000) _
              (reach_startup mixed_network offline 0 7 _ eq_refl) eq_refl)
    as (s' & t & H1 & _ & H3).
  exists s', t. exact (conj H1 H3).
Defined.

Lemma clocks_after_pass (e : env) (s s' : state) (t : list action) :
  iteration e s = (Running s', t) ->
  (fetch_fires e s = true ->
   fetch_clock s' = ticks_add (fetch_clock s) fetch_interval_ms)
  /\ (display_fires e s = true ->
      display_clock s' = ticks_add (display_clock s) display_interval_ms).
Proof.
  unfold display_fires, fetch_fires.
  case_pass e s; intros H; try discriminate H; injection H as <- <-;
    cbn [games fetch_clock display_clock game_index root_group
         set_display_clock set_root_group negb andb];
    split; intros D; try discriminate D; reflexivity.
Qed.

Lemma elapsed_after_advance (D N i : Z) :
  0 < i ->
  - TICKS_HALFPERIOD <= N - D < TICKS_HALFPERIOD ->
  elapsed (D mod TICKS_PERIOD) (N mod TICKS_PERIOD) i = true ->
  (elapsed (ticks_add (D mod TICKS_PERIOD) i) (N mod TICKS_PERIOD) i = true
   <-> N - D >= 2 * i).
Proof.
  intros Hi Hw Hdue. unfold elapsed in *.
  rewrite ticks_diff_wrap_diff in *.
  rewrite wrap_diff_unwrapped in Hdue by assumption.
  rewrite Z.geb_le in Hdue.
  rewrite ticks_add_mod, wrap_diff_unwrapped by lia.
  rewrite Z.geb_le. lia.
Qed.

(** X19. Catching up.  Because a deadline moves on from its old value
    and not from the clock, a timer that fired late is due again at
    once exactly when it was at least two intervals late; a timer less
    than two intervals late has caught up after one firing.  This holds
    for the fetch timer and for the display timer, across a counter
    overflow too. *)
Theorem timers_catch_up :
  forall (e : env) (s s' : state) (t : list action) (N : Z),
    iteration e s = (Running s', t) ->
    ticks_ms e = N mod TICKS_PERIOD ->
    (forall D,
        fetch_fires e s = true ->
        fetch_clock s = D mod TICKS_PERIOD ->
        - TICKS_HALFPERIOD <= N - D < TICKS_HALFPERIOD ->
        (fetch_due (fetch_clock s') (ticks_ms e) = true
         <-> N - D >= 2 * fetch_interval_ms))
    /\ (forall D,
          display_fires e s = true ->
          display_clock s = D mod TICKS_PERIOD ->
          - TICKS_HALFPERIOD <= N - D < TICKS_HALFPERIOD ->
          (display_due (display_clock s') (ticks_ms e) = true
           <-> N - D >= 2 * display_interval_ms)).
Proof.
  intros e s s' t N H HN.
  destruct (clocks_after_pass e s s' t H) as [Hf Hd].
  split; intros D Hfire HD Hw.
  - rewrite (Hf Hfire), HD, HN. unfold fetch_due.
    apply elapsed_after_advance; [reflexivity | exact Hw |].
    unfold fetch_fires, fetch_due in Hfire. now rewrite HD, HN in Hfire.
  - rewrite (Hd Hfire), HD, HN. unfold display_due.
    apply elapsed_after_advance; [reflexivity | exact Hw |].
    unfold display_fires in Hfire. apply andb_true_iff in Hfire as [_ Hfire].
    unfold display_due in Hfire. now rewrite HD, HN in Hfire.
Qed.

Lemma timers_catch_up_witness :
  display_due
    (display_clock (mk_state [game_A; game_B] 0 5000 0 (ScreenGame game_B)))
    (ticks_ms (pass_offline 12000)) = true
  <-> 12000 - 0 >= 2 * display_interval_ms.
Proof.
  apply (proj2 (timers_catch_up (pass_offline 12000) mid_rotation
                  (mk_state [game_A; game_B] 0 5000 0 (ScreenGame game_B))
                  [Print (LineShowing game_B); GcCollect; Show (ScreenGame game_B);
                   Sleep 100]
                  12000 eq_refl eq_refl)
               0 eq_refl eq_refl).
  rewrite TICKS_HALFPERIOD_val. lia.
Defined.

(* ================================================================== *)
(** ** Odd feeds and odd scores *)
(* ================================================================== *)

(** X20. Feeds of an unexpected shape are absorbed league by league.  A
    document without [events] counts as a league with no events; an
    [events] that is a string or an object is walked (characters, keys)
    and every item is rejected; an [events] that is a number, a boolean
    or null, and a document that is not an object, make the league's
    turn raise inside the [try].  In every one of these cases the
    league contributes no game. *)
Theorem odd_feeds_contribute_nothing :
  forall (nw : network) (item : nat * string) (data : pyval),
    nw (snd item) = Body data ->
    (forall items, data = PDict items -> lookup "events" items = None ->
                   request_events (nw (snd item)) = Ok [])
    /\ (forall items v, data = PDict items -> lookup "events" items = Some v ->
          ((exists s, v = PStr s) \/ (exists kvs, v = PDict kvs)) ->
          league_ok nw item = true /\ league_games nw item = [])
    /\ (forall items v, data = PDict items -> lookup "events" items = Some v ->
          (v = PNone \/ (exists b, v = PBool b) \/ (exists z, v = PInt z)
           \/ (exists nz t, v = PFloat nz t)) ->
          request_events (nw (snd item)) = Raise TypeError
          /\ league_games nw item = [])
    /\ ((forall items, data <> PDict items) ->
        request_events (nw (snd item)) = Raise AttributeError
        /\ league_games nw item = []).
Proof.
  intros nw item data Hfeed.
  unfold league_ok, league_games. rewrite Hfeed.
  unfold request_events. cbn [bind].
  split; [|split; [|split]].
  - intros items -> Hl. cbn [get bind]. now rewrite Hl.
  - intros items v -> Hl Hv. cbn [get bind]. rewrite Hl.
    destruct Hv as [[s ->]|[kvs ->]]; cbn [bind len iter].
    + split; [reflexivity|]. apply accepted_of_texts, chars_are_texts.
    + split; [reflexivity|]. apply accepted_of_texts.
      apply Forall_forall. intros ev Hev.
      apply in_map_iff in Hev as (kv & <- & _). eauto.
  - intros items v -> Hl Hv. cbn [get bind]. rewrite Hl.
    destruct Hv as [->|[[b ->]|[[z ->]|(nz & t & ->)]]]; split; reflexivity.
  - intros Hnd. destruct data; try (split; reflexivity).
    exfalso. apply (Hnd items). reflexivity.
Qed.

Lemma odd_feeds_contribute_nothing_witness :
  request_events (mixed_network (nth 2 SPORT_URLS EmptyString))
  = Raise AttributeError.
Proof.
  exact (proj1 (proj2 (proj2 (proj2
    (odd_feeds_contribute_nothing mixed_network
       (2%nat, nth 2 SPORT_URLS EmptyString) (PList []) eq_refl)))
    (fun items H => match H with end))).
Defined.

(** X21. The text stored for a score that is present: a string is kept
    as it is, an integer is written in decimal, and [null] and the
    booleans are written as Python writes them, so a [null] score is
    stored, and later shown, as the word None. *)
Theorem stored_score_texts :
  forall (event : pyval) (idx : nat) (g : game) (k : nat) (v : pyval),
    parse_game event idx = Some g ->
    (k = 0%nat \/ k = 1%nat) ->
    score_field event k = Some v ->
    let stored := if (k =? 0)%nat then home_score g else away_score g in
    (forall s, v = PStr s -> stored = s)
    /\ (forall z, v = PInt z -> stored = dec z)
    /\ (v = PNone -> stored = "None")
    /\ (v = PBool true -> stored = "True")
    /\ (v = PBool false -> stored = "False").
Proof.
  intros event idx g k v Hp Hk Hv.
  apply parse_game_inv in Hp
    as (ev & more & ci & i0 & i1 & t0 & t1 & h & a & st & ty & lg
        & -> & Hcs & Hcomp & Ht0 & Hh & Ht1 & Ha & Hst & Hty & Hlg & ->).
  unfold score_field in Hv. simpl in Hv. rewrite Hcs in Hv. simpl in Hv.
  rewrite Hcomp in Hv.
  destruct Hk as [-> | ->]; simpl in Hv; rewrite option_eta in Hv;
    cbn [Nat.eqb home_score away_score]; rewrite Hv; cbn [or_default];
    repeat split; intros; subst; reflexivity.
Qed.

Lemma stored_score_texts_witness :
  away_score (sample_game "STATUS_SCHEDULED" "1/15 - 7:30 PM EST" "0" "3"
                (PStr "1/14 7:30PM")) = dec 3.
Proof.
  exact (proj1 (proj2
    (stored_score_texts
       (sample_event "STATUS_SCHEDULED" "1/15 - 7:30 PM EST" [] [("score", PInt 3)])
       0%nat
       (sample_game "STATUS_SCHEDULED" "1/15 - 7:30 PM EST" "0" "3"
          (PStr "1/14 7:30PM"))
       1%nat (PInt 3) eq_refl (or_intror eq_refl) eq_refl)) 3 eq_refl).
Defined.

(* ================================================================== *)
(** ** The shape of a converted date *)
(* ================================================================== *)

Lemma string_length_append (a b : string) :
  String.length (a ++ b) = (String.length a + String.length b)%nat.
Proof. induction a as [|c a IH]; simpl; [reflexivity | now rewrite IH]. Qed.

Lemma dec_length_table :
  forallb (fun n => (1 <=? String.length (dec n))%nat
                    && (String.length (dec n) <=? 2)%nat
                    && (String.length (dec02 n) =? 2)%nat)
          (map Z.of_nat (seq 0 100)) = true.
Proof. vm_compute. reflexivity. Qed.

Lemma dec_length (n : Z) :
  0 <= n < 100 ->
  (1 <= String.length (dec n) <= 2)%nat /\ String.length (dec02 n) = 2%nat.
Proof.
  intros Hn. pose proof dec_length_table as H.
  rewrite forallb_forall in H.
  specialize (H n). cbv beta in H.
  rewrite !andb_true_iff, !Nat.leb_le, Nat.eqb_eq in H.
  apply H. apply in_map_iff. exists (Z.to_nat n). split; [lia|].
  apply in_seq. lia.
Qed.

Lemma days_in_month_le_31 (y m : Z) :
  1 <= m <= 12 -> Datetime.days_in_month y m <= 31.
Proof.
  intros Hm. unfold Datetime.days_in_month.
  destruct (DatetimeFacts.month_cases m Hm)
    as [->|[->|[->|[->|[->|[->|[->|[->|[->|[->|[->| ->]]]]]]]]]]];
    destruct (Datetime.is_leap y); vm_compute; discriminate.
Qed.

Lemma hour12_range (h : Z) : 0 <= h <= 23 -> 1 <= hour12 h <= 12.
Proof.
  intros Hh. unfold hour12.
  destruct (Z.eqb_spec (h mod 12) 0); [lia|].
  Z.to_euclidean_division_equations; lia.
Qed.

Lemma local_text_length (mo d h mi : Z) :
  1 <= mo <= 12 -> 1 <= d <= 31 -> 0 <= h <= 23 -> 0 <= mi <= 59 ->
  (10 <= String.length (local_text mo d h mi) <= 13)%nat.
Proof.
  intros Hmo Hd Hh Hmi. unfold local_text.
  rewrite !string_length_append.
  pose proof (hour12_range h Hh) as Hh12.
  destruct (dec_length mo) as [Lmo _]; [lia|].
  destruct (dec_length d) as [Ld _]; [lia|].
  destruct (dec_length (hour12 h)) as [Lh _]; [lia|].
  destruct (dec_length mi) as [_ Lmi]; [lia|].
  assert (Lap : String.length (am_pm h) = 2%nat)
    by (unfold am_pm; destruct (h <? 12); reflexivity).
  rewrite Lmi, Lap. simpl String.length. lia.
Qed.

(** X17. Whatever it is given, [convert_date_format] returns either
    "TBD" or a text [M/D H:MMAM|PM] for a month from 1 to 12, a day from
    1 to 31, an hour on the twelve-hour clock and a minute from 00 to
    59; the text is between 10 and 13 characters long. *)
Theorem convert_date_format_shape :
  forall (date_str : pyval) (tz : Z),
    convert_date_format date_str tz = "TBD"
    \/ exists mo d h mi,
         1 <= mo <= 12 /\ 1 <= d <= 31 /\ 0 <= h <= 23 /\ 0 <= mi <= 59
         /\ convert_date_format date_str tz = local_text mo d h mi
         /\ (10 <= String.length (convert_date_format date_str tz) <= 13)%nat.
Proof.
  intros date_str tz. unfold convert_date_format.
  destruct (convert_date_format_body date_str tz) as [text|e] eqn:E;
    [|left; reflexivity].
  right. unfold convert_date_format_body in E.
  apply bind_Ok in E as (y & _ & E).
  apply bind_Ok in E as (mo & _ & E).
  apply bind_Ok in E as (d & _ & E).
  apply bind_Ok in E as (h & _ & E).
  apply bind_Ok in E as (mi & _ & E).
  apply bind_Ok in E as (dt & Hmake & E).
  apply bind_Ok in E as (dt' & Hadd & E).
  unfold Datetime.make in Hmake.
  destruct (Datetime.valid_fields y mo d h mi) eqn:Ev; [|discriminate].
  injection Hmake as <-.
  pose proof (DatetimeFacts.add_hours_spec y mo d h mi tz Ev) as Hs.
  cbv zeta in Hs.
  destruct (in_calendar _); [|congruence].
  destruct Hs as (y' & mo' & d' & h' & mi' & Hadd' & Hv' & _).
  rewrite Hadd' in Hadd. injection Hadd as <-.
  cbn [Datetime.month Datetime.day Datetime.hour Datetime.minute] in E.
  apply DatetimeFacts.valid_fields_iff in Hv' as (_ & Hmo' & Hd' & Hh' & Hmi').
  pose proof (days_in_month_le_31 y' mo' Hmo') as H31.
  rewrite (hour12_code h' Hh') in E. injection E as <-.
  cbn [catch].
  exists mo', d', h', mi'.
  repeat split; try lia.
  - apply local_text_length; lia.
  - apply local_text_length; lia.
Qed.
